(** * hdlmake: module fetch resolution, module configuration and source files

    A shallow embedding of three files of the tool:
    - [hdlmake/srcfile.py]       (Module [srcfile]),
    - [hdlmake/module/core.py]   (Module [core]),
    - [hdlmake/action/commands.py] (Module [commands]),
    followed by the properties proved about them.

    Python objects that are shared and mutated (module descriptors) live in
    an explicit object store addressed by object identity; exceptions are
    values of [PyExn] carried by the [result] type. Calls to [logging] have
    no effect on the program state; of a logging call only the exception
    that the evaluation of its arguments can raise is kept. *)

From stdpp Require Import gmap strings list fin_maps.
From Stdlib Require Import Ascii String.

Open Scope string_scope.
Open Scope list_scope.

(** ** Python exceptions and fallible computations *)

Inductive PyExn : Type :=
  | RuntimeError (msg : string)
  | Exception (args : list string)
  | AssertionError
  | IndexError
  | IOError (filename : string)
  | TypeError (msg : string)
  | ValueError (msg : string)
  | AttributeError (msg : string)
  | FileNotFoundError (filename : string)
  | NotADirectoryError (filename : string).

Inductive result (A : Type) : Type :=
  | Ok (a : A)
  | Raise (e : PyExn).
Arguments Ok {A} a.
Arguments Raise {A} e.

Definition rbind {A B} (r : result A) (k : A → result B) : result B :=
  match r with
  | Ok a => k a
  | Raise e => Raise e
  end.

Notation "x ←! r ; k" := (rbind r (λ x, k))
  (at level 20, r at level 100, k at level 200, right associativity,
   format "x  ←!  r ;  '/' k").

(** ** Python string helpers *)

(** [s[:-n]] *)
Definition drop_last (n : nat) (s : string) : string :=
  String.substring 0 (String.length s - n) s.

(** [s.rsplit(sep)] without [maxsplit]: every occurrence of [sep] splits. *)
Fixpoint rsplit (sep : ascii) (s : string) : list string :=
  match s with
  | EmptyString => [EmptyString]
  | String c s' =>
      if Ascii.eqb c sep then EmptyString :: rsplit sep s'
      else match rsplit sep s' with
           | [] => [String c EmptyString]
           | p :: ps => String c p :: ps
           end
  end.

(** The double quote. *)
Definition dq : string := String (ascii_of_nat 34) EmptyString.

(** ["%s.%s" % (a, b)] *)
Definition dotted (a b : string) : string := a +:+ "." +:+ b.

Module srcfile.

(** Reference to the module object owning a file. *)
Abbreviation ModRef := nat.

(** The classes declared in [srcfile.py]. *)
Inductive FileClass : Type :=
  | VHDLFile | VerilogFile | SVFile
  | TCLFile
  | UCFFile | XISEFile | CDCFile | XMPFile | PPRFile | XPRFile | BDFile
  | XCOFile | NGCFile | XDCFile | XCFFile | COEFile | MIFFile | RAMFile
  | VHOFile | BMMFile | VEOFile | XCIFile
  | SDCFile
  | LDFFile | LPFFile | PCFFile | EDFFile
  | PDCFile
  | WBGenFile
  | QIPFile | IPFile | QSYSFile | DPFFile | QSFFile | BSFFile | BDFFile
  | TDFFile | GDFFile | SignalTapFile.

#[global] Instance FileClass_eq_dec : EqDecision FileClass.
Proof. solve_decision. Defined.

(** The parsers attached by the constructors of the parseable classes. *)
Inductive Parser : Type := VHDLParser | VerilogParser | XCIParser.

(** [DepRelation]: direction, kind and the name of the design unit. *)
Inductive Direction : Type := PROVIDE | USE.
Inductive RelType : Type := ENTITY | PACKAGE | INCLUDE | ARCHITECTURE.

Record DepRelation : Type := mkDepRelation {
  obj_name : string;
  direction : Direction;
  rel_type : RelType }.

(** A file object. [library] is [None] on the classes deriving from [File]
    directly, which have no such attribute. *)
Record File : Type := mkFile {
  file_class : FileClass;
  path : string;
  module : ModRef;
  library : option string;
  is_include : bool;
  include_dirs : list string;
  parser : option Parser;
  rels : list DepRelation;
  is_parsed : bool }.

(** Modelled from the spec: [DepFile.add_relation] (dep_file.py is not part of
    the sources at hand); the relations of a file are an ordered sequence of
    provide/use facts, so a relation is appended. *)
Definition add_relation (r : DepRelation) (f : File) : File :=
  mkFile (file_class f) (path f) (module f) (library f) (is_include f)
         (include_dirs f) (parser f) (rels f ++ [r]) (is_parsed f).

Definition set_parser (p : Parser) (f : File) : File :=
  mkFile (file_class f) (path f) (module f) (library f) (is_include f)
         (include_dirs f) (Some p) (rels f) (is_parsed f).

Definition set_include_dirs (d : list string) (f : File) : File :=
  mkFile (file_class f) (path f) (module f) (library f) (is_include f)
         d (parser f) (rels f) (is_parsed f).

Definition set_is_include (b : bool) (f : File) : File :=
  mkFile (file_class f) (path f) (module f) (library f) b
         (include_dirs f) (parser f) (rels f) (is_parsed f).

Definition set_is_parsed (b : bool) (f : File) : File :=
  mkFile (file_class f) (path f) (module f) (library f) (is_include f)
         (include_dirs f) (parser f) (rels f) b.

(** *** The scan of a Qsys description

    [re.compile(b'<hdlLibraryName>(?P<entity>[\w_\d]+)</hdlLibraryName>')]
    applied with [finditer] to the bytes of the file. On a bytes pattern
    [\w] is [[a-zA-Z0-9_]], which contains [_] and [\d]. The closing tag
    starts with [<], which is not a word character: only the longest run of
    word characters can be followed by it, so the greedy [+] never
    backtracks to a successful shorter match. *)

Definition is_word (c : ascii) : bool :=
  let n := nat_of_ascii c in
  (((48 <=? n) && (n <=? 57)) || ((65 <=? n) && (n <=? 90))
   || ((97 <=? n) && (n <=? 122)) || (n =? 95))%nat.

Definition open_tag : string := "<hdlLibraryName>".
Definition close_tag : string := "</hdlLibraryName>".

Fixpoint strip_prefix (p s : string) : option string :=
  match p, s with
  | EmptyString, _ => Some s
  | String a p', String b s' =>
      if Ascii.eqb a b then strip_prefix p' s' else None
  | String _ _, EmptyString => None
  end.

Fixpoint span_word (s : string) : string * string :=
  match s with
  | EmptyString => (EmptyString, EmptyString)
  | String c s' =>
      if is_word c then
        let '(w, r) := span_word s' in (String c w, r)
      else (EmptyString, s)
  end.

(** A match anchored at the start of [s]: the group [entity] and the length
    of the whole match. *)
Definition match_here (s : string) : option (string * nat) :=
  match strip_prefix open_tag s with
  | None => None
  | Some r1 =>
      let '(ent, r2) := span_word r1 in
      match ent with
      | EmptyString => None
      | String _ _ =>
          match strip_prefix close_tag r2 with
          | None => None
          | Some _ =>
              Some (ent, String.length open_tag + String.length ent
                         + String.length close_tag)
          end
      end
  end.

(** [finditer]: leftmost matches that do not overlap; after a match the
    search resumes where the match ended ([skip] counts the characters of
    the current match still to be passed over). *)
Fixpoint finditer_from (skip : nat) (s : string) : list string :=
  match s with
  | EmptyString => []
  | String _ s' =>
      match skip with
      | S k => finditer_from k s'
      | O =>
          match match_here s with
          | Some (ent, n) => ent :: finditer_from (n - 1) s'
          | None => finditer_from 0 s'
          end
      end
  end.

Definition finditer (s : string) : list string := finditer_from 0 s.

(** What the scan is meant to find, stated on the text itself: an occurrence
    is the opening tag, a non-empty run of word characters [E] and the
    closing tag; occurrences are taken leftmost first and do not overlap. *)
Fixpoint word_string (s : string) : bool :=
  match s with
  | EmptyString => true
  | String c s' => is_word c && word_string s'
  end.

Inductive Occurrences : string → list string → Prop :=
  | occ_end : Occurrences EmptyString []
  | occ_hit E rest es :
      E ≠ EmptyString → word_string E = true → Occurrences rest es →
      Occurrences (open_tag +:+ E +:+ close_tag +:+ rest) (E :: es)
  | occ_skip c s es :
      (∀ E rest, E ≠ EmptyString → word_string E = true →
                 String c s ≠ open_tag +:+ E +:+ close_tag +:+ rest) →
      Occurrences s es →
      Occurrences (String c s) es.

Section constructors.

(** Functions of [os.path] and of [hdlmake.util.path], and the content of
    the files on disk, none of which this file defines. [mmap_bytes p] is
    the byte string seen through [mmap.mmap(fileno, 0, ACCESS_READ)] of
    the file opened at [p], [None] when [io.open] fails. *)
Variable isabs : string → bool.
Variable abspath : string → string.
Variable dirname : string → string.
Variable relpath : string → string.
Variable pathsplit : string → list string.
Variable mmap_bytes : string → option string.

(** [File.__init__] and [DepFile.__init__]: no relation, not parsed. *)
Definition File_init (c : FileClass) (p : string) (m : ModRef) : File :=
  mkFile c p m None false [] None [] false.

(** [SourceFile.__init__] *)
Definition SourceFile_init (c : FileClass) (p : string) (m : ModRef)
    (lib : option string) : File :=
  let lib' := match lib with
              | None => "work"
              | Some l => if bool_decide (l = "") then "work" else l
              end in
  mkFile c p m (Some lib') false [] None [] false.

(** [VHDLFile.__init__] *)
Definition VHDLFile_init (p : string) (m : ModRef) (lib : option string)
    : File :=
  set_parser VHDLParser (SourceFile_init VHDLFile p m lib).

(** [VerilogFile.__init__], inherited by [SVFile]. *)
Definition VerilogFile_init (c : FileClass) (p : string) (m : ModRef)
    (lib : option string) (incl : option (list string)) (is_incl : bool)
    : File :=
  let f := SourceFile_init c p m lib in
  let dirs := match incl with
              | None => []
              | Some l => l
              end in
  let f := set_include_dirs (dirs ++ [relpath (dirname p)]) f in
  let f := set_parser VerilogParser f in
  set_is_include is_incl f.

(** [XCIFile.__init__] *)
Definition XCIFile_init (p : string) (m : ModRef) (lib : option string)
    : File :=
  set_parser XCIParser (SourceFile_init XCIFile p m lib).

(** [pathsplit(path)[-1]] *)
Definition last_component (p : string) : result string :=
  match last (pathsplit p) with
  | Some f => Ok f
  | None => Raise IndexError
  end.

(** [IPFile.__init__] *)
Definition IPFile_init (p : string) (m : ModRef) : result File :=
  filename ←! last_component p;
  let library := drop_last 3 filename in
  let entity := drop_last 3 filename in
  let f := SourceFile_init IPFile p m (Some library) in
  let obj_name := dotted library entity in
  let provides := mkDepRelation obj_name PROVIDE ENTITY in
  let f := add_relation provides f in
  Ok (set_is_parsed true f).

(** [QSYSFile.__init__] *)
Definition QSYSFile_init (p : string) (m : ModRef) : result File :=
  filename ←! last_component p;
  let library := drop_last 5 filename in
  let entity := drop_last 5 filename in
  let f := SourceFile_init QSYSFile p m (Some library) in
  let obj_name := dotted library entity in
  let f := add_relation (mkDepRelation obj_name PROVIDE ENTITY) f in
  let f := add_relation (mkDepRelation obj_name PROVIDE ARCHITECTURE) f in
  match mmap_bytes p with
  | None => Raise (IOError p)
  | Some EmptyString => Raise (ValueError "cannot mmap an empty file")
  | Some qsys_xml =>
      let f :=
        foldl (λ f entity,
                 let library := entity in
                 let obj_name := dotted library entity in
                 add_relation (mkDepRelation obj_name USE ENTITY) f)
              f (finditer qsys_xml) in
      Ok (set_is_parsed true f)
  end.

(** Calling a class with [path=] and [module=] only, as the dictionary
    branches of [create_source_file] do. *)
Definition construct (c : FileClass) (p : string) (m : ModRef)
    : result File :=
  match c with
  | VHDLFile => Ok (VHDLFile_init p m None)
  | VerilogFile | SVFile => Ok (VerilogFile_init c p m None None false)
  | XCIFile => Ok (XCIFile_init p m None)
  | IPFile => IPFile_init p m
  | QSYSFile => QSYSFile_init p m
  | _ => Ok (File_init c p m)
  end.

Definition XILINX_FILE_DICT : gmap string FileClass :=
  list_to_map
    [("xise", XISEFile); ("ise", XISEFile); ("ngc", NGCFile);
     ("ucf", UCFFile); ("cdc", CDCFile); ("xmp", XMPFile);
     ("ppr", PPRFile); ("xpr", XPRFile); ("bd", BDFile);
     ("xco", XCOFile); ("xdc", XDCFile); ("xcf", XCFFile);
     ("coe", COEFile); ("mif", MIFFile); ("ram", RAMFile);
     ("vho", VHOFile); ("veo", VEOFile); ("bmm", BMMFile);
     ("xci", XCIFile)].

Definition LATTICE_FILE_DICT : gmap string FileClass :=
  list_to_map
    [("ldf", LDFFile); ("lpf", LPFFile); ("edf", EDFFile);
     ("edif", EDFFile); ("edi", EDFFile); ("edn", EDFFile);
     ("pcf", PCFFile)].

Definition MICROSEMI_FILE_DICT : gmap string FileClass :=
  list_to_map [("pdc", PDCFile)].

Definition ALTERA_FILE_DICT : gmap string FileClass :=
  list_to_map
    [("stp", SignalTapFile); ("qip", QIPFile); ("ip", IPFile);
     ("qsys", QSYSFile); ("dpf", DPFFile); ("qsf", QSFFile);
     ("bsf", BSFFile); ("bdf", BDFFile); ("tdf", TDFFile);
     ("gdf", GDFFile)].

(** The extension [create_source_file] computes: the last piece of the
    absolute path split at every dot. *)
Definition absolute (p : string) : string :=
  if isabs p then p else abspath p.

Definition extension_of (p : string) : string :=
  let tmp := rsplit "."%char p in
  default EmptyString (tmp !! (List.length tmp - 1)).

Definition unknown_extension (p extension : string) : PyExn :=
  Exception ["Cannot create source file %s, unknown file extension %s";
             p; extension].

(** [create_source_file]; [path] may be [None]. *)
Definition create_source_file (path : option string) (m : ModRef)
    (library : option string) (include_dirs : option (list string))
    (is_include : bool) : result File :=
  match path with
  | None => Raise (RuntimeError "Expected a file path, got: None")
  | Some p =>
      if bool_decide (p = "") then
        Raise (RuntimeError "Expected a file path, got: ")
      else
        let p := absolute p in
        let extension := extension_of p in
        if bool_decide (extension ∈ ["vhd"; "vhdl"; "vho"]) then
          Ok (VHDLFile_init p m library)
        else if bool_decide (extension ∈ ["v"; "vh"; "vo"; "vm"]) then
          Ok (VerilogFile_init VerilogFile p m library include_dirs
                               is_include)
        else if bool_decide (extension = "sv")
                || bool_decide (extension = "svh") then
          Ok (VerilogFile_init SVFile p m library include_dirs is_include)
        else if bool_decide (extension = "wb") then
          Ok (File_init WBGenFile p m)
        else if bool_decide (extension = "tcl") then
          Ok (File_init TCLFile p m)
        else if bool_decide (extension = "sdc") then
          Ok (File_init SDCFile p m)
        else
          match XILINX_FILE_DICT !! extension with
          | Some c => construct c p m
          | None =>
          match ALTERA_FILE_DICT !! extension with
          | Some c => construct c p m
          | None =>
          match LATTICE_FILE_DICT !! extension with
          | Some c => construct c p m
          | None =>
          match MICROSEMI_FILE_DICT !! extension with
          | Some c => construct c p m
          | None => Raise (unknown_extension p extension)
          end end end end
  end.

End constructors.




End srcfile.

(** ** Module descriptors: [hdlmake/module/core.py] *)

Module core.

(** Identity of a Python object in the object store. *)
Abbreviation ObjId := nat.

(** The values [source] takes. *)
Inductive Source : Type := svn | git | gitsm | local.

#[global] Instance Source_eq_dec : EqDecision Source.
Proof. solve_decision. Defined.

(** The attributes set by [ModuleConfig.__init__] and [ModuleCore.__init__],
    and [modules], the children found by manifest parsing, kept per manifest
    key in the order of the manifest. *)
Record Module : Type := mkModule {
  source : option Source;
  parent : option ObjId;
  url : option string;
  branch : option string;
  revision : option string;
  path : option string;
  isfetched : bool;
  library_overide : option string;
  library : string;
  action : option string;
  manifest_dict : option (gmap string string);
  modules : list (Source * list ObjId) }.

(** The state [ModuleCore.__init__] leaves. *)
Definition new_module : Module :=
  mkModule None None None None None None false None "work" None None [].

Definition set_source v (m : Module) : Module :=
  mkModule v (parent m) (url m) (branch m) (revision m) (path m)
    (isfetched m) (library_overide m) (library m) (action m)
    (manifest_dict m) (modules m).
Definition set_parent v (m : Module) : Module :=
  mkModule (source m) v (url m) (branch m) (revision m) (path m)
    (isfetched m) (library_overide m) (library m) (action m)
    (manifest_dict m) (modules m).
Definition set_url v (m : Module) : Module :=
  mkModule (source m) (parent m) v (branch m) (revision m) (path m)
    (isfetched m) (library_overide m) (library m) (action m)
    (manifest_dict m) (modules m).
Definition set_branch v (m : Module) : Module :=
  mkModule (source m) (parent m) (url m) v (revision m) (path m)
    (isfetched m) (library_overide m) (library m) (action m)
    (manifest_dict m) (modules m).
Definition set_revision v (m : Module) : Module :=
  mkModule (source m) (parent m) (url m) (branch m) v (path m)
    (isfetched m) (library_overide m) (library m) (action m)
    (manifest_dict m) (modules m).
Definition set_path v (m : Module) : Module :=
  mkModule (source m) (parent m) (url m) (branch m) (revision m) v
    (isfetched m) (library_overide m) (library m) (action m)
    (manifest_dict m) (modules m).
Definition set_isfetched v (m : Module) : Module :=
  mkModule (source m) (parent m) (url m) (branch m) (revision m) (path m)
    v (library_overide m) (library m) (action m)
    (manifest_dict m) (modules m).
Definition set_library_overide v (m : Module) : Module :=
  mkModule (source m) (parent m) (url m) (branch m) (revision m) (path m)
    (isfetched m) v (library m) (action m)
    (manifest_dict m) (modules m).
Definition set_library v (m : Module) : Module :=
  mkModule (source m) (parent m) (url m) (branch m) (revision m) (path m)
    (isfetched m) (library_overide m) v (action m)
    (manifest_dict m) (modules m).
Definition set_action v (m : Module) : Module :=
  mkModule (source m) (parent m) (url m) (branch m) (revision m) (path m)
    (isfetched m) (library_overide m) (library m) v
    (manifest_dict m) (modules m).
Definition set_manifest_dict v (m : Module) : Module :=
  mkModule (source m) (parent m) (url m) (branch m) (revision m) (path m)
    (isfetched m) (library_overide m) (library m) (action m)
    v (modules m).
Definition set_modules v (m : Module) : Module :=
  mkModule (source m) (parent m) (url m) (branch m) (revision m) (path m)
    (isfetched m) (library_overide m) (library m) (action m)
    (manifest_dict m) v.

(** The argument of [init_config]. *)
Record ModuleArgs : Type := mkModuleArgs {
  arg_parent : option ObjId;
  arg_url : string;
  arg_source : Source;
  arg_fetchto : string }.

(** What is on disk at a path that exists: a directory, with the entries
    [os.listdir] returns for it, or a file that is not a directory. *)
Inductive Node : Type :=
  | Directory (entries : list string)
  | RegularFile.

Abbreviation FS := (gmap string Node).

Definition os_path_exists (fs : FS) (p : string) : bool :=
  bool_decide (is_Some (fs !! p)).

Definition os_listdir (fs : FS) (p : string) : result (list string) :=
  match fs !! p with
  | Some (Directory entries) => Ok entries
  | Some RegularFile => Raise (NotADirectoryError p)
  | None => Raise (FileNotFoundError p)
  end.

(** Truth value of a Python list. *)
Definition truthy {A} (l : list A) : bool :=
  match l with
  | [] => false
  | _ :: _ => true
  end.

(** What [str.lower] does on ASCII text: the letters A to Z are mapped to
    a to z. The examples take it for [str.lower]. *)
Definition lower_ascii (c : ascii) : ascii :=
  let n := nat_of_ascii c in
  if ((65 <=? n) && (n <=? 90))%nat then ascii_of_nat (n + 32) else c.

Fixpoint lower (s : string) : string :=
  match s with
  | EmptyString => EmptyString
  | String c s' => String (lower_ascii c) (lower s')
  end.

Section config.

(** Helpers of [hdlmake.util.path] and [os.path] that the file imports,
    and the text [str(self.parent)] gives. *)
Variable svn_parse : string → string * option string.
Variable url_parse :
  string → string * option string * option string * option string.
Variable svn_basename : string → string.
Variable url_basename : string → string.
Variable relpath : string → string.
Variable abspath : string → string.
Variable join : string → string → string.
Variable str_parent : option ObjId → string.

(** [ModuleConfig.basename]; [url] has been assigned when it is called. *)
Definition basename (self : Module) : string :=
  let u := default "" (url self) in
  if bool_decide (source self = Some svn) then svn_basename u
  else url_basename u.

Definition local_missing (u : string) (par : option ObjId) : PyExn :=
  Exception ["Path to the local module doesn't exist:
" +:+ u +:+ "
This module was instantiated in: " +:+ str_parent par].

(** The exception of [self.parent.path] when [self.parent] is [None]. *)
Definition no_parent_path : PyExn :=
  AttributeError "'NoneType' object has no attribute 'path'".

(** [os.path.exists(path) and os.listdir(path)], as a truth value. *)
Definition exists_and_lists (fs : FS) (path : string) : result bool :=
  if os_path_exists fs path then
    entries ←! os_listdir fs path; Ok (truthy entries)
  else Ok false.

(** The argument [self.parent.path] of the two logging calls of
    [init_config]; it is evaluated whatever the logging level is. *)
Definition parent_path_logged (parent : option ObjId) : result unit :=
  match parent with
  | Some _ => Ok ()
  | None => Raise no_parent_path
  end.

(** [ModuleConfig.init_config]: what the call returns or raises, and the
    object as the call leaves it. An exception leaves the attributes that
    were assigned before it was raised. *)
Definition init_config (fs : FS) (self : Module) (module_args : ModuleArgs)
    : result unit * Module :=
  let parent := arg_parent module_args in
  let url := arg_url module_args in
  let source := arg_source module_args in
  let fetchto := arg_fetchto module_args in
  let self := set_source (Some source) self in
  let self := set_parent parent self in
  if bool_decide (source ≠ local) then
    let self :=
      if bool_decide (source = svn) then
        let '(u, r) := svn_parse url in
        set_revision r (set_url (Some u) self)
      else
        let '(u, b, r, lo) := url_parse url in
        set_library_overide lo
          (set_revision r (set_branch b (set_url (Some u) self))) in
    let basename := basename self in
    let basename :=
      match library_overide self with
      | Some lo =>
          if bool_decide (lo = "") then basename
          else basename +:+ "-" +:+ lo
      | None => basename
      end in
    let path := relpath (abspath (join fetchto basename)) in
    match exists_and_lists fs path with
    | Raise e => (Raise e, self)
    | Ok true =>
        let self := set_isfetched true (set_path (Some path) self) in
        (parent_path_logged parent, self)
    | Ok false =>
        let self := set_isfetched false (set_path (Some path) self) in
        (parent_path_logged parent, self)
    end
  else
    let self :=
      set_revision None (set_branch None (set_url (Some url) self)) in
    if negb (os_path_exists fs url) then
      (Raise (local_missing url parent), self)
    else
      (Ok (), set_isfetched true (set_path (Some (relpath url)) self)).

(** The object handed back by a constructor that runs [init_config] on
    [self]: the configured object, or the exception of [init_config], which
    the constructor lets through. *)
Definition configured (fs : FS) (self : Module) (module_args : ModuleArgs)
    : result Module :=
  let '(r, self) := init_config fs self module_args in
  _ ←! r; Ok self.

End config.

Definition not_iterable : PyExn :=
  TypeError "argument of type 'NoneType' is not iterable".

(** [Module.submodules]: the children of every manifest key, flattened. *)
Definition submodules (self : Module) : list ObjId :=
  List.concat (snd <$> modules self).

(** The object store: the object with identity [i] is at index [i]. *)
Abbreviation Store := (list Module).

Section manifest.

(** [str.lower], of the Python that runs the tool. *)
Variable str_lower : string → string.

(** [ModuleCore._process_manifest_universal]; [parent_obj] is the object
    [self.parent] refers to. Testing a key of [manifest_dict] while it is
    still [None] raises. *)
Definition _process_manifest_universal (parent_obj : option Module)
    (self : Module) : result Module :=
  self ←!
    match library_overide self with
    | Some lo => Ok (set_library lo self)
    | None =>
        match manifest_dict self with
        | None => Raise not_iterable
        | Some d =>
            match d !! "library" with
            | Some l => Ok (set_library l self)
            | None =>
                match parent_obj with
                | Some p => Ok (set_library (library p) self)
                | None => Ok self
                end
            end
        end
    end;
  match manifest_dict self with
  | None => Raise not_iterable
  | Some d =>
      match d !! "action" with
      | Some a => Ok (set_action (Some (str_lower a)) self)
      | None => Ok self
      end
  end.

(** [ModuleCore.process_manifest] on the object [id] of the store; the call
    after it, [ModuleConfig.process_manifest], does nothing. *)
Definition process_manifest (st : Store) (id : ObjId) : result Store :=
  match st !! id with
  | None => Ok st
  | Some self =>
      let parent_obj := p ← parent self; st !! p in
      self' ←! _process_manifest_universal parent_obj self;
      Ok (<[id := self']> st)
  end.

(** Manifests processed one after the other, parents first. *)
Fixpoint process_all (st : Store) (ids : list ObjId) : result Store :=
  match ids with
  | [] => Ok st
  | id :: ids' =>
      st' ←! process_manifest st id;
      process_all st' ids'
  end.

End manifest.

(** A chain of sub-modules below the module [p]: each one has the previous
    one as parent, no library override and no [library] key in its parsed
    manifest; all of them are different objects. *)
Fixpoint inheritance_chain (st : Store) (p : ObjId) (chain : list ObjId)
    : bool :=
  bool_decide (is_Some (st !! p)) &&
  match chain with
  | [] => true
  | c :: rest =>
      bool_decide (p ∉ chain) &&
      match st !! c with
      | Some m =>
          bool_decide (parent m = Some p) &&
          bool_decide (library_overide m = None) &&
          match manifest_dict m with
          | Some d => bool_decide (d !! "library" = None)
          | None => false
          end
      | None => false
      end &&
      inheritance_chain st c rest
  end.

End core.

(** ** The core actions: [hdlmake/action/commands.py] *)

Module commands.
Import core.

(** What the actions do to the outside world, in order: a call of the
    [fetch] method of a backend on a module (with the resolved path of the
    module at that moment), a shell command passed to [os.system], the
    removal of the directory of a module. *)
Inductive Event : Type :=
  | BackendFetch (backend : Source) (module : ObjId) (path : option string)
  | OsSystem (cmd : string)
  | RemoveDir (module : ObjId).

(** The pool of an action: the module objects, [self.manifests] (references
    to them, in discovery order), the directories on disk and the trace. *)
Record Pool : Type := mkPool {
  store : Store;
  manifests : list ObjId;
  fs : FS;
  events : list Event }.

Definition set_store v (p : Pool) := mkPool v (manifests p) (fs p) (events p).
Definition set_manifests v (p : Pool) := mkPool (store p) v (fs p) (events p).
Definition set_fs v (p : Pool) := mkPool (store p) (manifests p) v (events p).
Definition log_event e (p : Pool) :=
  mkPool (store p) (manifests p) (fs p) (events p ++ [e]).

(** Computations that read and write the pool and may raise. *)
Definition M (A : Type) : Type := Pool → result A * Pool.

#[global] Instance M_ret : MRet M := λ A a p, (Ok a, p).
#[global] Instance M_bind : MBind M := λ A B k m p,
  match m p with
  | (Ok a, p') => k a p'
  | (Raise e, p') => (Raise e, p')
  end.

Definition raise {A} (e : PyExn) : M A := λ p, (Raise e, p).
Definition get_pool : M Pool := λ p, (Ok p, p).
Definition modify (f : Pool → Pool) : M unit := λ p, (Ok (), f p).

(** Attribute reads on the object [id]. *)
Definition is_fetched (p : Pool) (id : ObjId) : bool :=
  from_option isfetched false (store p !! id).

Definition path_of (p : Pool) (id : ObjId) : option string :=
  m ← store p !! id; path m.

Definition submodules_of (p : Pool) (id : ObjId) : list ObjId :=
  from_option submodules [] (store p !! id).

(** [fetch_queue.pop()] takes the last element. *)
Definition pop (q : list ObjId) : option (ObjId * list ObjId) :=
  match reverse q with
  | [] => None
  | x :: r => Some (x, reverse r)
  end.

(** The manifest file of a module directory, as far as the actions use it:
    the scalar directives, the [fetchto] directory and the sub-modules
    declared under each key of [modules], in order. *)
Record Manifest : Type := mkManifest {
  m_dict : gmap string string;
  m_fetchto : string;
  m_modules : list (Source * list string) }.

Section actions.

(** [str.lower], and the helpers of [hdlmake.util.path] and [os.path]. *)
Variable str_lower : string → string.
Variable svn_parse : string → string * option string.
Variable url_parse :
  string → string * option string * option string * option string.
Variable svn_basename : string → string.
Variable url_basename : string → string.
Variable relpath : string → string.
Variable abspath : string → string.
Variable join : string → string → string.
Variable str_parent : option ObjId → string.

(** The manifest found in the directory of a module, the outcome of a
    checkout by the backend of a kind ([None]: the backend fails, [Some l]:
    the directory is created with the entries [l]), and the effect and
    exit status of a shell command. *)
Variable manifest_at : option string → Manifest.
Variable checkout : Source → Module → option (list string).
Variable os_system : string → FS → Z * FS.

(** Modelled from the spec: [Action._add] (action.py is not part of the
    sources at hand) registers a module in the module set, avoiding a
    duplicate registration when a module of the identical resolved path is
    already there. *)
Definition _add (new_module : ObjId) (p : Pool) : Pool :=
  if bool_decide
       (Exists (λ m, path_of p m = path_of p new_module) (manifests p))
  then p
  else set_manifests (manifests p ++ [new_module]) p.

(** Modelled from the spec: the [fetch] method of the backends
    (hdlmake/fetch is not part of the sources at hand) checks the module
    out at its recorded url, branch or revision and path and returns
    false on any failure; after a successful fetch [isfetched] is true. *)
Definition backend_fetch (kind : Source) (module : ObjId) : M bool := λ p,
  match store p !! module with
  | None => (Raise AssertionError, p)
  | Some m =>
      let p := log_event (BackendFetch kind module (path m)) p in
      match checkout kind m with
      | None => (Ok false, p)
      | Some entries =>
          let fs' := match path m with
                     | Some d => <[d := Directory entries]> (fs p)
                     | None => fs p
                     end in
          (Ok true,
           set_fs fs' (set_store (<[module := set_isfetched true m]>
                                    (store p)) p))
      end
  end.

(** Modelled from the spec: the creation of a module object for a
    declaration of a manifest (the constructor of [Module] and the pool
    method that calls it are not part of the sources at hand). The object
    is configured by [init_config], and the pool records it in the module
    set, avoiding a duplicate registration as [_add] does. *)
Definition new_child (parent : ObjId) (fetchto : string) (src : Source)
    (u : string) : M ObjId := λ p,
  match configured svn_parse url_parse svn_basename url_basename relpath
          abspath join str_parent (fs p) new_module
          (mkModuleArgs (Some parent) u src fetchto) with
  | Raise e => (Raise e, p)
  | Ok m =>
      let id := List.length (store p) in
      (Ok id, _add id (set_store (store p ++ [m]) p))
  end.

Fixpoint new_children (parent : ObjId) (fetchto : string) (src : Source)
    (urls : list string) : M (list ObjId) :=
  match urls with
  | [] => mret []
  | u :: urls' =>
      c ← new_child parent fetchto src u;
      cs ← new_children parent fetchto src urls';
      mret (c :: cs)
  end.

Fixpoint declared_modules (parent : ObjId) (fetchto : string)
    (decls : list (Source * list string)) : M (list (Source * list ObjId)) :=
  match decls with
  | [] => mret []
  | (src, urls) :: decls' =>
      cs ← new_children parent fetchto src urls;
      rest ← declared_modules parent fetchto decls';
      mret ((src, cs) :: rest)
  end.

Definition update_module (id : ObjId) (f : Module → Module) : M unit :=
  modify (λ p, set_store (alter f id (store p)) p).

(** [process_manifest] of the object [id], on the store of the pool. *)
Definition process_manifest_of (id : ObjId) : M unit := λ p,
  match process_manifest str_lower (store p) id with
  | Ok st => (Ok (), set_store st p)
  | Raise e => (Raise e, p)
  end.

(** Modelled from the spec: [Module.parse_manifest] (hdlmake/module is
    only partly among the sources at hand) reads the manifest of the
    module, processes its directives and populates the child modules of
    the module: one module object, created by [new_child], for every
    sub-module the manifest declares. *)
Definition parse_manifest (id : ObjId) : M unit :=
  p ← get_pool;
  let mf := manifest_at (path_of p id) in
  _ ← update_module id (set_manifest_dict (Some (m_dict mf)));
  _ ← process_manifest_of id;
  kids ← declared_modules id (m_fetchto mf) (m_modules mf);
  update_module id (set_modules kids).

Definition unable_to_fetch (u : option string) : PyExn :=
  Exception ["Unable to fetch module %s"; default "None" u].

(** [_fetch_module], the local function of [_fetch_all]. *)
Definition _fetch_module (module : ObjId) : M (list ObjId) :=
  p ← get_pool;
  result ←
    match source <$> store p !! module with
    | Some (Some svn) => backend_fetch svn module
    | Some (Some git) => backend_fetch git module
    | Some (Some gitsm) => backend_fetch gitsm module
    | _ => raise AssertionError
    end;
  if negb result then
    raise (unable_to_fetch (m ← store p !! module; url m))
  else
    _ ← parse_manifest module;
    p ← get_pool;
    mret (submodules_of p module).

(** The body of [for mod in new_modules]. *)
Definition visit (s : list ObjId * Pool) (mod_aux : ObjId)
    : list ObjId * Pool :=
  let '(fetch_queue, p) := s in
  if negb (is_fetched p mod_aux) then (fetch_queue ++ [mod_aux], _add mod_aux p)
  else (fetch_queue, p).

(** The [while] loop of [_fetch_all]; [fuel] bounds the number of
    iterations, [None] tells that it ran out. *)
Fixpoint fetch_loop (fuel : nat) (fetch_queue : list ObjId) (p : Pool)
    : option (result unit) * Pool :=
  match pop fetch_queue with
  | None => (Some (Ok ()), p)
  | Some (cur_mod, fetch_queue) =>
      match fuel with
      | O => (None, p)
      | S fuel' =>
          let '(r, p) :=
            (if is_fetched p cur_mod then mret (submodules_of p cur_mod)
             else _fetch_module cur_mod) p in
          match r with
          | Raise e => (Some (Raise e), p)
          | Ok new_modules =>
              let '(fetch_queue, p) :=
                foldl visit (fetch_queue, p) new_modules in
              fetch_loop fuel' fetch_queue p
          end
      end
  end.

(** [ActionCore._fetch_all] *)
Definition _fetch_all (fuel : nat) (p : Pool) : option (result unit) * Pool :=
  fetch_loop fuel (manifests p) p.

(** One of the two hook loops of [fetch]; the value [os.system] returns
    is dropped. *)
Definition run_hook (key : string) (p : Pool) (mod_aux : ObjId) : Pool :=
  match store p !! mod_aux with
  | None => p
  | Some m =>
      match manifest_dict m with
      | Some d =>
          if isfetched m then
            match d !! key with
            | Some cmd =>
                let '(_, fs') := os_system cmd (fs p) in
                set_fs fs' (log_event (OsSystem cmd) p)
            | None => p
            end
          else p
      | None => p
      end
  end.

Definition run_hooks (key : string) (p : Pool) : Pool :=
  foldl (run_hook key) p (manifests p).

(** [ActionCore.fetch] *)
Definition fetch (fuel : nat) (p : Pool) : option (result unit) * Pool :=
  let p := run_hooks "fetch_pre_cmd" p in
  match _fetch_all fuel p with
  | (Some (Ok _), p) => (Some (Ok ()), run_hooks "fetch_post_cmd" p)
  | other => other
  end.

(** [k] is the directory [d] or a path below it. *)
Definition within (d k : string) : bool :=
  String.eqb k d || String.prefix (d +:+ "/") k.

(** Modelled from the spec: [Module.remove_dir_from_disk] deletes the
    directory tree of the module, that is its resolved path and every path
    below it; nothing happens when it is absent. *)
Definition remove_dir_from_disk (p : Pool) (mod_aux : ObjId) : Pool :=
  let p := log_event (RemoveDir mod_aux) p in
  match path_of p mod_aux with
  | Some d => set_fs (filter (λ kv, within d kv.1 = false) (fs p)) p
  | None => p
  end.

Definition version_controlled (m : Module) : bool :=
  bool_decide (source m ∈ [Some git; Some gitsm; Some svn]).

Definition to_remove (p : Pool) (mod_aux : ObjId) : bool :=
  match store p !! mod_aux with
  | Some m => version_controlled m && isfetched m
  | None => false
  end.

(** The exception of [+] between a string and [None]. *)
Definition concat_none : PyExn :=
  TypeError ("can only concatenate str (not " +:+ dq +:+ "NoneType" +:+ dq
             +:+ ") to str").

(** The line [clean] logs before it removes a module; it is built with
    [+], whatever the logging level is. *)
Definition clean_line (m : Module) : result string :=
  match url m, path m with
  | Some u, Some d => Ok ("... clean: " +:+ u +:+ " [from: " +:+ d +:+ "]")
  | _, _ => Raise concat_none
  end.

(** The module has a url and a path: its line can be built. *)
Definition has_url_and_path (p : Pool) (mod_aux : ObjId) : bool :=
  match store p !! mod_aux with
  | Some m => bool_decide (is_Some (url m) ∧ is_Some (path m))
  | None => false
  end.

(** The loop of [clean] over [remove_list], whose members are objects of
    the store. *)
Fixpoint clean_loop (remove_list : list ObjId) (p : Pool)
    : result unit * Pool :=
  match remove_list with
  | [] => (Ok (), p)
  | mod_aux :: rest =>
      match from_option clean_line (Raise concat_none)
              (store p !! mod_aux) with
      | Raise e => (Raise e, p)
      | Ok _ => clean_loop rest (remove_dir_from_disk p mod_aux)
      end
  end.

(** [ActionCore.clean] *)
Definition clean (p : Pool) : result unit * Pool :=
  let remove_list :=
  filter (λ mod_aux, to_remove p mod_aux = true) (manifests p) in
  let remove_list := reverse remove_list in
  if truthy remove_list then clean_loop remove_list p
  else (Ok (), p).

End actions.

(** *** Notions used to state what the actions do *)

(** Registration of several modules, one after the other. *)
Definition add_all (p : Pool) (l : list ObjId) : Pool :=
  foldl (λ p c, _add c p) p l.

(** A module of the resolved path of [c] is in the module set. *)
Definition registered (p : Pool) (c : ObjId) : Prop :=
  Exists (λ m, path_of p m = path_of p c) (manifests p).

(** The modules, and the resolved paths, of the backend calls of a trace. *)
Definition fetched_modules (evs : list Event) : list ObjId :=
  omap (λ e, match e with
             | BackendFetch _ id _ => Some id
             | _ => None
             end) evs.

Definition fetched_paths (evs : list Event) : list (option string) :=
  omap (λ e, match e with
             | BackendFetch _ _ d => Some d
             | _ => None
             end) evs.

(** Between two states of the pool nothing is fetched and no flag is
    cleared; a computation that only makes such steps. *)
Definition stable (p p' : Pool) : Prop :=
  events p' = events p
  ∧ ∀ j, is_fetched p j = true → is_fetched p' j = true.

Definition keeps {A} (c : M A) : Prop := ∀ p, stable p (c p).2.

(** A call of the [fetch] method of a backend. *)
Definition is_backend_call (e : Event) : bool :=
  match e with
  | BackendFetch _ _ _ => true
  | _ => false
  end.

(** The invariant of the loop of [_fetch_all], for a run started in [p0]
    that has added [calls] to the trace so far: no module occurs twice
    among these calls, every module fetched so far is flagged as fetched
    and was not when the run started, and no flag set at the start has
    been cleared. *)
Definition fetch_inv (p0 p : Pool) (calls : list Event) : Prop :=
  events p = events p0 ++ calls
  ∧ NoDup (fetched_modules calls)
  ∧ (∀ id, id ∈ fetched_modules calls →
           is_fetched p id = true ∧ is_fetched p0 id = false)
  ∧ (∀ j, is_fetched p0 j = true → is_fetched p j = true).

Definition fetch_post (p0 p : Pool) : Prop :=
  ∃ calls, events p = events p0 ++ calls
           ∧ NoDup (fetched_modules calls)
           ∧ ∀ id, id ∈ fetched_modules calls → is_fetched p0 id = false.

(** The command of a hook of a module: the module is fetched, its manifest
    is parsed and carries the directive [key]. *)
Definition hook_command (key : string) (m : Module) : option string :=
  if isfetched m then d ← manifest_dict m; d !! key else None.

Definition hook_commands (key : string) (p : Pool) : list string :=
  omap (λ id, m ← store p !! id; hook_command key m) (manifests p).

End commands.

(** ** Concrete inputs used by the examples *)

Module srcfile_examples.
Import srcfile.

(** A small file system for the examples: every relative path lives under
    [/work]; path components are separated by [/]. *)
Definition ex_isabs (p : string) : bool :=
  match p with
  | String "/" _ => true
  | _ => false
  end.
Definition ex_abspath (p : string) : string := "/work/" +:+ p.
Definition ex_pathsplit (p : string) : list string := rsplit "/"%char p.
Definition ex_dirname (p : string) : string :=
  drop_last (String.length (default "" (last (ex_pathsplit p))) + 1) p.
Definition ex_relpath (p : string) : string := p.

Definition soc_xml : string :=
  "<ip><hdlLibraryName>pll_0</hdlLibraryName><a/>" +:+
  "<hdlLibraryName>uart</hdlLibraryName></ip>".

Definition ex_mmap_bytes (p : string) : option string :=
  if bool_decide (p = "/work/soc.qsys") then Some soc_xml else None.

End srcfile_examples.

Module pool_examples.
Import core commands.

(** The helpers of [hdlmake.util.path] on the plain paths and urls of the
    examples: an url has neither branch nor revision, its basename is its
    last component, every path is already relative and normalised. *)
Definition ex_svn_parse (u : string) : string * option string := (u, None).
Definition ex_url_parse (u : string)
    : string * option string * option string * option string :=
  (u, None, None, None).
Definition ex_basename (u : string) : string :=
  default "" (last (rsplit "/"%char u)).
Definition ex_same (p : string) : string := p.
Definition ex_join (a b : string) : string := a +:+ "/" +:+ b.
Definition ex_str_parent (o : option ObjId) : string :=
  match o with
  | None => "None"
  | Some _ => "module"
  end.

(** The manifests of the examples; every module fetches below [ip]. *)
Definition ex_manifest_at (p : option string) : Manifest :=
  if bool_decide (p = Some "top") then
    mkManifest ∅ "ip" [(git, ["git://host/b"; "git://host/c"])]
  else if bool_decide (p = Some "ip/b") then
    mkManifest ∅ "ip" [(git, ["git://host/d"])]
  else if bool_decide (p = Some "ip/c") then
    mkManifest ∅ "ip" [(git, ["git://host/d"])]
  else if bool_decide (p = Some "ip/m") then
    mkManifest ∅ "ip" [(local, ["sub"])]
  else mkManifest ∅ "ip" [].

(** Every checkout succeeds, except the one of [git://host/broken]. *)
Definition ex_checkout (kind : Source) (m : Module) : option (list string) :=
  if bool_decide (url m = Some "git://host/broken") then None
  else Some ["Manifest.py"].

(** Two shells that differ in the exit status they report only. *)
Definition ex_shell_ok (cmd : string) (f : FS) : Z * FS := (0%Z, f).
Definition ex_shell_failing (cmd : string) (f : FS) : Z * FS := (1%Z, f).

Definition a_module (src : Source) (par : option ObjId) (u p : string)
    (fetched : bool) (d : option (gmap string string))
    (kids : list (Source * list ObjId)) : Module :=
  mkModule (Some src) par (Some u) None None (Some p) fetched None "work"
           None d kids.

(** A diamond: the modules [b] and [c], both on disk already, each declare
    the module [d], which is not on disk yet. The two declarations are two
    module objects, 3 and 4, of the same resolved path [ip/d]. *)
Definition diamond_fs : FS :=
  {[ "top" := Directory ["Manifest.py"]; "ip/b" := Directory ["Manifest.py"];
     "ip/c" := Directory ["Manifest.py"] ]}.

Definition diamond_store : Store :=
  [a_module local None "top" "top" true (Some ∅) [(git, [1; 2])];
   a_module git (Some 0) "git://host/b" "ip/b" true (Some ∅) [(git, [3])];
   a_module git (Some 0) "git://host/c" "ip/c" true (Some ∅) [(git, [4])];
   a_module git (Some 1) "git://host/d" "ip/d" false None [];
   a_module git (Some 2) "git://host/d" "ip/d" false None []].

Definition diamond_pool : Pool :=
  mkPool diamond_store [0; 1; 2; 3] diamond_fs [].

(** The pool before any manifest is parsed. *)
Definition top_only : Pool :=
  mkPool [a_module local None "top" "top" true None []] [0] diamond_fs [].

(** The module [m] is not fetched; its manifest declares the local module
    [sub], which is on disk. *)
Definition local_child_pool : Pool :=
  mkPool
    [a_module local None "top" "top" true (Some ∅) [(git, [1])];
     a_module git (Some 0) "git://host/m" "ip/m" false None []]
    [0; 1]
    {[ "top" := Directory ["Manifest.py"]; "sub" := Directory ["Manifest.py"] ]}
    [].

(** A module whose checkout fails. *)
Definition broken_pool : Pool :=
  mkPool
    [a_module local None "top" "top" true (Some ∅) [(git, [1])];
     a_module git (Some 0) "git://host/broken" "ip/broken" false None []]
    [0; 1]
    {[ "top" := Directory ["Manifest.py"] ]}
    [].

(** A chain root, a, b, all fetched. *)
Definition chain_pool : Pool :=
  mkPool
    [a_module local None "top" "top" true (Some ∅) [(git, [1])];
     a_module git (Some 0) "git://host/a" "ip/a" true (Some ∅) [(git, [2])];
     a_module git (Some 1) "git://host/b" "ip/b" true (Some ∅) []]
    [0; 1; 2]
    {[ "top" := Directory ["Manifest.py"]; "ip/a" := Directory ["Manifest.py"];
       "ip/b" := Directory ["Manifest.py"] ]}
    [].

(** A fetched module with both hooks, and an unfetched one with a hook. *)
Definition hook_pool : Pool :=
  mkPool
    [a_module local None "top" "top" true
       (Some {[ "fetch_pre_cmd" := "make prepare";
                "fetch_post_cmd" := "make ready" ]}) [];
     a_module git (Some 0) "git://host/broken" "ip/broken" false
       (Some {[ "fetch_pre_cmd" := "make never" ]}) []]
    [0]
    {[ "top" := Directory ["Manifest.py"] ]}
    [].

(** A library [cores] set on the top module, and two plain sub-modules. *)
Definition library_store : Store :=
  [mkModule (Some local) None (Some "top") None None (Some "top") true None
            "cores" None (Some {[ "library" := "cores" ]}) [(git, [1])];
   a_module git (Some 0) "git://host/a" "ip/a" true (Some ∅) [(git, [2])];
   a_module git (Some 1) "git://host/b" "ip/b" true (Some ∅) []].

End pool_examples.

(** ** More of [srcfile.py], [module/core.py] and [action/commands.py] *)

(** [sep.join(l)] *)
Fixpoint str_join (sep : string) (l : list string) : string :=
  match l with
  | [] => EmptyString
  | [x] => x
  | x :: l' => x +:+ sep +:+ str_join sep l'
  end.

(** No character of [s] is [c]. *)
Fixpoint lacks (c : ascii) (s : string) : bool :=
  match s with
  | EmptyString => true
  | String a s' => negb (Ascii.eqb a c) && lacks c s'
  end.

Module srcfile_more.
Import srcfile.

(** What the constructors of [srcfile.py] leave on a file object, class by
    class: the parser of the parseable classes, the relations and the
    [is_parsed] mark of the two Altera descriptions, nothing of the kind on
    the other classes, which have no library either. [own_dir] is the
    directory [VerilogFile.__init__] appends to the include path. *)
Definition as_constructed (own_dir : string) (f : File) : Prop :=
  match file_class f with
  | VHDLFile =>
      parser f = Some VHDLParser ∧ rels f = [] ∧ is_parsed f = false
      ∧ is_Some (library f)
  | VerilogFile | SVFile =>
      parser f = Some VerilogParser ∧ rels f = [] ∧ is_parsed f = false
      ∧ is_Some (library f) ∧ last (include_dirs f) = Some own_dir
  | XCIFile =>
      parser f = Some XCIParser ∧ rels f = [] ∧ is_parsed f = false
      ∧ library f = Some "work"
  | IPFile =>
      parser f = None ∧ is_parsed f = true ∧ is_Some (library f)
      ∧ ∃ name, rels f = [mkDepRelation name PROVIDE ENTITY]
  | QSYSFile =>
      parser f = None ∧ is_parsed f = true ∧ is_Some (library f)
      ∧ ∃ name uses,
          rels f = mkDepRelation name PROVIDE ENTITY
                   :: mkDepRelation name PROVIDE ARCHITECTURE :: uses
          ∧ Forall (λ r, direction r = USE ∧ rel_type r = ENTITY) uses
  | _ =>
      parser f = None ∧ rels f = [] ∧ is_parsed f = false
      ∧ library f = None ∧ include_dirs f = []
  end.

(** The extensions [create_source_file] tests before it turns to the
    dictionaries of the vendors. *)
Definition HDL_EXTENSIONS : list string :=
  ["vhd"; "vhdl"; "vho"; "v"; "vh"; "vo"; "vm"; "sv"; "svh"].

End srcfile_more.

Module core_more.
Import core.

Section paths.

Variable svn_parse : string → string * option string.
Variable url_parse :
  string → string * option string * option string * option string.
Variable svn_basename : string → string.
Variable url_basename : string → string.
Variable relpath : string → string.
Variable abspath : string → string.
Variable join : string → string → string.

(** Helpers of [hdlmake.util.path] and [os.path] used by the checks of the
    paths of a manifest; [path_exists] is [os.path.exists] on the disk at
    the time of the call. *)
Variable is_abs_path : string → bool.
Variable rel2abs : string → option string → string.
Variable path_exists : string → bool.

(** The path [init_config] resolves for a module that is not local, as a
    function of the source, the url and [fetchto] (and, for svn, of the
    library override the object already has). *)
Definition resolved_path (self : Module) (source : Source)
    (url fetchto : string) : string :=
  let '(u, lo) :=
    if bool_decide (source = svn) then
      ((svn_parse url).1, library_overide self)
    else
      let '(u, _, _, lo) := url_parse url in (u, lo) in
  let base := if bool_decide (source = svn) then svn_basename u
              else url_basename u in
  let base := match lo with
              | Some l => if bool_decide (l = "") then base
                          else base +:+ "-" +:+ l
              | None => base
              end in
  relpath (abspath (join fetchto base)).

Definition path_missing (dir filepath : string) : PyExn :=
  Exception ["Path specified in manifest " +:+ dir +:+ " doesn't exist: "
             +:+ filepath].

Definition no_path : PyExn :=
  TypeError "expected str, bytes or os.PathLike object, not NoneType".

(** [ModuleConfig._check_filepath]; joining with a [path] that is still
    [None] raises. The test for a directory that follows only logs a
    warning. *)
Definition _check_filepath (self : Module) (filepath : string) : result bool :=
  if bool_decide (filepath ≠ "") then
    if is_abs_path filepath then Ok false
    else
      match path self with
      | None => Raise no_path
      | Some dir =>
          let filepath := join dir filepath in
          if negb (path_exists filepath) then
            Raise (path_missing dir filepath)
          else Ok true
      end
  else Ok true.

(** [ModuleConfig._make_list_of_paths]: the loop, with the list [paths]
    built so far. [rel2abs] receives [self.path] as it is. *)
Fixpoint make_list_loop (self : Module) (paths : list string)
    (list_of_paths : list string) : result (list string) :=
  match list_of_paths with
  | [] => Ok paths
  | filepath :: rest =>
      ok ←! _check_filepath self filepath;
      make_list_loop self
        (if ok then paths ++ [rel2abs filepath (path self)] else paths) rest
  end.

Definition _make_list_of_paths (self : Module) (list_of_paths : list string)
    : result (list string) :=
  make_list_loop self [] list_of_paths.

(** The entries of a manifest that [_make_list_of_paths] refuses, and those
    it keeps. *)
Definition missing_entry (dir filepath : string) : bool :=
  bool_decide (filepath ≠ "") && negb (is_abs_path filepath)
  && negb (path_exists (join dir filepath)).

Definition kept_entry (filepath : string) : bool :=
  bool_decide (filepath = "") || negb (is_abs_path filepath).

End paths.

End core_more.

Module commands_more.
Import core commands.

(** What [update] and [_print_comment] emit, in order: a line printed to
    standard output and a call of [update] on the git backend. *)
Inductive Output : Type :=
  | Print (line : string)
  | BackendUpdate (module : ObjId).

(** Raised when [library] is read on an object of a class that has no such
    attribute, else the file written: its name and its content. *)
Inductive qip_outcome : Type :=
  | Written (filename content : string)
  | AttributeError (attribute : string).

Section more_actions.

(** [str(m)] for a module, [os.path.relpath] from the current directory. *)
Variable str_module : option Module → string.
Variable os_relpath : string → string.

Definition not_fetched (unfetched : list string) : PyExn :=
  Exception ["Fetching should be done before continuing.
The following modules remains unfetched:
 " +:+ str_join "
 " unfetched].

(** [ActionCore._check_all_fetched] *)
Definition _check_all_fetched (p : Pool) : result unit :=
  let unfetched := filter (λ m, is_fetched p m = false) (manifests p) in
  if negb (bool_decide (List.length unfetched = 0)) then
    Raise (not_fetched ((λ m, str_module (store p !! m)) <$> unfetched))
  else Ok ().

(** [Action._print_comment] *)
Definition _print_comment (terse : bool) (message : string) : list Output :=
  if negb terse then [Print message] else [].

(** [ActionCore.update]; the calls of the backend are recorded, they change
    nothing that the loop reads. *)
Definition update_module_output (terse : bool) (p : Pool) (mod_aux : ObjId)
    : list Output :=
  match store p !! mod_aux with
  | None => []
  | Some m =>
      if negb (isfetched m) then
        _print_comment terse
          ("# MODULE UNFETCHED! -> " +:+ default "None" (url m))
      else if bool_decide (source m = Some git) then [BackendUpdate mod_aux]
      else []
  end.

Definition update (terse : bool) (p : Pool) : list Output :=
  mod_aux ← manifests p; update_module_output terse p mod_aux.

(** The kind [_write_qip] names for a file; [isinstance] accepts the
    subclass [SVFile] of [VerilogFile]. *)
Definition ftype (f : srcfile.File) : string :=
  match srcfile.file_class f with
  | srcfile.VHDLFile => "VHDL_FILE"
  | srcfile.VerilogFile | srcfile.SVFile => "VERILOG_FILE"
  | srcfile.IPFile => "IP_FILE"
  | srcfile.QSYSFile => "QSYS_FILE"
  | _ => "MISC_FILE"
  end.

Definition qip_line (lib ftype path : string) : string :=
  "set_global_assignment -library " +:+ dq +:+ lib +:+ dq +:+ " -name "
  +:+ ftype +:+ "  " +:+ dq +:+ path +:+ dq.

(** The loop of [_write_qip] over [file_list], with [tcl] built so far. *)
Fixpoint qip_lines (tcl : list string) (file_list : list srcfile.File)
    : list string + string :=
  match file_list with
  | [] => inl tcl
  | file_aux :: rest =>
      let path := os_relpath (srcfile.path file_aux) in
      match srcfile.library file_aux with
      | None => inr "library"
      | Some lib => qip_lines (tcl ++ [qip_line lib (ftype file_aux) path]) rest
      end
  end.

(** [ActionCore._write_qip]; [top_entity] is the name the action holds for
    the top entity, the outcome is the file written. *)
Definition _write_qip (top_entity : string) (file_list : list srcfile.File)
    (filename : option string) : qip_outcome :=
  match qip_lines [] file_list with
  | inr a => AttributeError a
  | inl tcl =>
      let filename :=
        match filename with
        | None => top_entity
        | Some n => if bool_decide (n = "") then top_entity else n
        end in
      Written filename (str_join "
" tcl +:+ "
")
  end.

End more_actions.

(** *** What a run of [_fetch_all] leaves as it was *)

(** From [p] to [p'] only backend calls are added to the trace, the module
    set is extended at its end, no directory disappears, and every module
    object keeps its identity: source, parent, url, branch, revision and
    resolved path; a flag [isfetched] that is set stays set. *)
Definition same_identity (m m' : Module) : Prop :=
  source m' = source m ∧ parent m' = parent m ∧ url m' = url m
  ∧ branch m' = branch m ∧ revision m' = revision m ∧ path m' = path m
  ∧ library_overide m' = library_overide m
  ∧ (isfetched m = true → isfetched m' = true).

Definition extends (p p' : Pool) : Prop :=
  (∃ calls, events p' = events p ++ calls
            ∧ Forall (λ e, is_backend_call e = true) calls)
  ∧ manifests p `prefix_of` manifests p'
  ∧ (∀ d, is_Some (fs p !! d) → is_Some (fs p' !! d))
  ∧ (∀ id m, store p !! id = Some m →
             ∃ m', store p' !! id = Some m' ∧ same_identity m m').

Definition extending {A} (c : M A) : Prop := ∀ p, extends p (c p).2.

End commands_more.

(** ** Concrete inputs for the further properties *)

Module more_examples.
Import core commands srcfile_examples pool_examples.

(** The path helpers of the checks of a manifest, on the small file system
    of the examples: below [top] two sources exist. *)
Definition ex_rel2abs (f : string) (d : option string) : string :=
  "/work/" +:+ default "" d +:+ "/" +:+ f.
Definition ex_path_exists (p : string) : bool :=
  bool_decide (p ∈ ["top/rtl/a.vhd"; "top/rtl/c.v"]).

Definition top_module : Module :=
  a_module local None "top" "top" true None [].

(** A module that declares the action [Synthesis]. *)
Definition synthesis_module : Module :=
  a_module git (Some 0) "git://host/a" "ip/a" true
    (Some {[ "action" := "Synthesis" ]}) [].

(** [str(m)] of a module of the examples is its url. *)
Definition ex_str_module (o : option Module) : string :=
  default "None" (o ≫= url).

(** A pool whose only module object has not been configured. *)
Definition unborn_pool : Pool := mkPool [new_module] [0] ∅ [].

(** The two declarations of the module [d] in the diamond. *)
Definition d_of_b : ModuleArgs := mkModuleArgs (Some 1) "git://host/d" git "ip".
Definition d_of_c : ModuleArgs := mkModuleArgs (Some 2) "git://host/d" git "ip".

(** A VHDL file of the library [cores] and a SystemVerilog file. *)
Definition qip_files : list srcfile.File :=
  [srcfile.VHDLFile_init "/work/top.vhd" 0 (Some "cores");
   srcfile.VerilogFile_init ex_dirname ex_relpath srcfile.SVFile
     "/work/rtl/uart.sv" 0 None None false].

End more_examples.

(** ** Properties of [srcfile.py] *)

Module srcfile_props.
Import srcfile.

Lemma app_cons (c : Ascii.ascii) (s t : string) :
  String c s +:+ t = String c (s +:+ t).
Proof. reflexivity. Qed.

Lemma app_nil (t : string) : EmptyString +:+ t = t.
Proof. reflexivity. Qed.

Lemma string_app_assoc (a b c : string) : (a +:+ b) +:+ c = a +:+ (b +:+ c).
Proof.
  induction a as [|x a IH]; [done |]. by rewrite !app_cons, IH.
Qed.

Lemma string_length_app (a b : string) :
  String.length (a +:+ b) = String.length a + String.length b.
Proof.
  induction a as [|x a IH]; [done |]. rewrite app_cons. simpl. by rewrite IH.
Qed.


Lemma strip_prefix_app (p s : string) : strip_prefix p (p +:+ s) = Some s.
Proof.
  induction p as [|a p IH]; [done |].
  rewrite app_cons. simpl. by rewrite Ascii.eqb_refl.
Qed.

Lemma strip_prefix_Some (p s r : string) :
  strip_prefix p s = Some r → s = p +:+ r.
Proof.
  revert s. induction p as [|a p IH]; intros s; simpl.
  - by intros [= ->].
  - destruct s as [|b s]; [done |].
    destruct (Ascii.eqb_spec a b) as [->|]; [|done].
    intros H. by rewrite (IH _ H).
Qed.

Lemma span_word_app (E rest : string) :
  word_string E = true →
  match rest with
  | EmptyString => True
  | String c _ => is_word c = false
  end →
  span_word (E +:+ rest) = (E, rest).
Proof.
  intros HE Hrest. induction E as [|c E IH].
  - rewrite app_nil. destruct rest as [|c r]; [done |]. simpl.
    by rewrite Hrest.
  - simpl in HE. apply andb_true_iff in HE as [Hc HE].
    rewrite app_cons. simpl. by rewrite Hc, (IH HE).
Qed.

Lemma span_word_spec (s w r : string) :
  span_word s = (w, r) → s = w +:+ r ∧ word_string w = true.
Proof.
  revert w r. induction s as [|c s IH]; intros w r; simpl.
  - by intros [= <- <-].
  - destruct (is_word c) eqn:Hc.
    + destruct (span_word s) as [w' r'] eqn:Hs. intros [= <- <-].
      destruct (IH _ _ eq_refl) as [-> Hw]. simpl. by rewrite Hc, Hw.
    + by intros [= <- <-].
Qed.

Lemma match_here_complete (E rest : string) :
  E ≠ EmptyString → word_string E = true →
  match_here (open_tag +:+ E +:+ close_tag +:+ rest)
  = Some (E, String.length open_tag + String.length E
             + String.length close_tag).
Proof.
  intros HE Hw. unfold match_here.
  rewrite strip_prefix_app.
  rewrite (span_word_app E (close_tag +:+ rest) Hw) by done.
  destruct E as [|c E]; [done |].
  by rewrite strip_prefix_app.
Qed.

Lemma match_here_sound (s E : string) (n : nat) :
  match_here s = Some (E, n) →
  ∃ rest, s = open_tag +:+ E +:+ close_tag +:+ rest
          ∧ E ≠ EmptyString ∧ word_string E = true
          ∧ n = String.length open_tag + String.length E
                + String.length close_tag.
Proof.
  unfold match_here. intros H.
  destruct (strip_prefix open_tag s) as [r1|] eqn:H1; [|done].
  destruct (span_word r1) as [ent r2] eqn:H2.
  destruct ent as [|c ent]; [done |].
  destruct (strip_prefix close_tag r2) as [r3|] eqn:H3; [|done].
  injection H as <-.
  apply strip_prefix_Some in H1, H3. apply span_word_spec in H2 as [-> Hw].
  exists r3. subst. done.
Qed.

Lemma finditer_from_skip (a s : string) :
  finditer_from (String.length a) (a +:+ s) = finditer_from 0 s.
Proof.
  induction a as [|c a IH]; [done |]. rewrite app_cons. simpl. done.
Qed.

Lemma finditer_occurrences (s : string) : Occurrences s (finditer s).
Proof.
  unfold finditer.
  remember (String.length s) as n eqn:Hn.
  revert s Hn. induction (lt_wf n) as [n _ IH]. intros s ->.
  destruct s as [|c s]; [constructor |].
  simpl. destruct (match_here (String c s)) as [[E k]|] eqn:Hm.
  - destruct (match_here_sound _ _ _ Hm) as (rest & Hs & HE & Hw & ->).
    set (a := "hdlLibraryName>" +:+ E +:+ close_tag).
    assert (Ha : s = a +:+ rest).
    { unfold open_tag in Hs. rewrite app_cons in Hs. injection Hs as _ Hs.
      unfold a. by rewrite !string_app_assoc. }
    assert (Hlen : String.length open_tag + String.length E
                   + String.length close_tag - 1 = String.length a).
    { unfold a. rewrite !string_length_app. simpl. lia. }
    rewrite Hs, Hlen, Ha, finditer_from_skip.
    apply occ_hit; [done | done |].
    eapply IH; [|done]. rewrite Ha. simpl. rewrite string_length_app. lia.
  - apply occ_skip.
    + intros E rest HE Hw Heq. rewrite Heq, match_here_complete in Hm; done.
    + eapply IH; [|done]. simpl. lia.
Qed.

Lemma finditer_from_cons (c : Ascii.ascii) (s : string) :
  finditer_from 0 (String c s)
  = match match_here (String c s) with
    | Some (ent, n) => ent :: finditer_from (n - 1) s
    | None => finditer_from 0 s
    end.
Proof. reflexivity. Qed.

Lemma finditer_hit (E rest : string) :
  E ≠ EmptyString → word_string E = true →
  finditer_from 0 (open_tag +:+ E +:+ close_tag +:+ rest)
  = E :: finditer_from 0 rest.
Proof.
  intros HE Hw.
  pose proof (match_here_complete E rest HE Hw) as Hm.
  set (a := "hdlLibraryName>" +:+ E +:+ close_tag).
  assert (Hs : open_tag +:+ E +:+ close_tag +:+ rest
               = String "<"%char (a +:+ rest)).
  { unfold open_tag, a. rewrite app_cons. by rewrite !string_app_assoc. }
  rewrite Hs in Hm |- *. rewrite finditer_from_cons, Hm. f_equal.
  rewrite <- (finditer_from_skip a). f_equal.
  unfold a. rewrite !string_length_app. simpl. lia.
Qed.

Lemma occurrences_finditer (s : string) (es : list string) :
  Occurrences s es → es = finditer s.
Proof.
  unfold finditer. induction 1 as [|E rest es HE Hw _ IH|c s es Hno _ IH].
  - done.
  - by rewrite finditer_hit, IH.
  - rewrite finditer_from_cons.
    destruct (match_here (String c s)) as [[E k]|] eqn:Hm; [|done].
    destruct (match_here_sound _ _ _ Hm) as (rest & Hs & HE & Hw & _).
    by destruct (Hno E rest HE Hw).
Qed.


Section facts.

Variable isabs : string → bool.
Variable abspath : string → string.
Variable dirname : string → string.
Variable relpath : string → string.
Variable pathsplit : string → list string.
Variable mmap_bytes : string → option string.

Local Abbreviation create :=
  (create_source_file isabs abspath dirname relpath pathsplit mmap_bytes).
Local Abbreviation build := (construct dirname relpath pathsplit mmap_bytes).









(** Claim C10. For a path whose extension is [vho], [create_source_file]
    returns a [VHDLFile] with the VHDL parser attached, and not the
    [VHOFile] that [XILINX_FILE_DICT] has for [vho]: the test for the VHDL
    extensions comes first. *)
Theorem vho_is_parsed_as_vhdl
    (p : string) (m : ModRef) (lib : option string)
    (incl : option (list string)) (is_incl : bool) :
  p ≠ EmptyString →
  extension_of (absolute isabs abspath p) = "vho" →
  ∃ f, create (Some p) m lib incl is_incl = Ok f
       ∧ file_class f = VHDLFile
       ∧ parser f = Some VHDLParser
       ∧ file_class f ≠ VHOFile
       ∧ XILINX_FILE_DICT !! "vho" = Some VHOFile.
Proof.
  intros Hp Hext. unfold create_source_file.
  rewrite bool_decide_eq_false_2 by done. rewrite Hext.
  eexists. split; [reflexivity |]. by repeat split.
Qed.

End facts.

Import srcfile_examples.



Lemma vho_is_parsed_as_vhdl_witness :
  ("core.vho" ≠ EmptyString
   ∧ extension_of (absolute ex_isabs ex_abspath "core.vho") = "vho")
  ∧ ∃ f, create_source_file ex_isabs ex_abspath ex_dirname ex_relpath
           ex_pathsplit ex_mmap_bytes (Some "core.vho") 0 None None false
         = Ok f
         ∧ file_class f = VHDLFile
         ∧ parser f = Some VHDLParser
         ∧ file_class f ≠ VHOFile
         ∧ XILINX_FILE_DICT !! "vho" = Some VHOFile.
Proof.
  split; [by split |].
  apply (vho_is_parsed_as_vhdl ex_isabs ex_abspath ex_dirname ex_relpath
           ex_pathsplit ex_mmap_bytes "core.vho" 0 None None false);
    by vm_compute.
Defined.

Example soc_relations :
  rels <$> (match QSYSFile_init ex_pathsplit ex_mmap_bytes
                    "/work/soc.qsys" 0 with
            | Ok f => Some f
            | Raise _ => None
            end)
  = Some [mkDepRelation "soc.soc" PROVIDE ENTITY;
          mkDepRelation "soc.soc" PROVIDE ARCHITECTURE;
          mkDepRelation "pll_0.pll_0" USE ENTITY;
          mkDepRelation "uart.uart" USE ENTITY].
Proof. reflexivity. Qed.

End srcfile_props.

(** ** Properties of [module/core.py] *)

Module core_props.
Import core core_more.

Section config_facts.
Variable svn_parse : string → string * option string.
Variable url_parse :
  string → string * option string * option string * option string.
Variable svn_basename : string → string.
Variable url_basename : string → string.
Variable relpath : string → string.
Variable abspath : string → string.
Variable join : string → string → string.
Variable str_parent : option ObjId → string.

Local Abbreviation init_run :=
  (init_config svn_parse url_parse svn_basename url_basename relpath
     abspath join str_parent).
Local Abbreviation init :=
  (configured svn_parse url_parse svn_basename url_basename relpath
     abspath join str_parent).
Local Abbreviation resolved :=
  (resolved_path svn_parse url_parse svn_basename url_basename relpath
     abspath join).

Lemma exists_and_lists_node (fs : FS) (d : string) :
  exists_and_lists fs d
  = match fs !! d with
    | Some (Directory entries) => Ok (truthy entries)
    | Some RegularFile => Raise (NotADirectoryError d)
    | None => Ok false
    end.
Proof.
  unfold exists_and_lists, os_path_exists, os_listdir.
  by destruct (fs !! d) as [[l|]|].
Qed.

(** The form of [init_config] on a module that is not local: the object
    [m0] carries what is assigned before the disk is looked at. *)
Lemma init_config_remote (self : Module) (args : ModuleArgs) :
  arg_source args ≠ local →
  let d := resolved self (arg_source args) (arg_url args)
             (arg_fetchto args) in
  ∃ m0, source m0 = Some (arg_source args)
        ∧ parent m0 = arg_parent args
        ∧ path m0 = path self
        ∧ isfetched m0 = isfetched self
        ∧ library m0 = library self
        ∧ ∀ fs, init_run fs self args
                = match fs !! d with
                  | Some RegularFile => (Raise (NotADirectoryError d), m0)
                  | Some (Directory entries) =>
                      (parent_path_logged (arg_parent args),
                       set_isfetched (truthy entries)
                         (set_path (Some d) m0))
                  | None =>
                      (parent_path_logged (arg_parent args),
                       set_isfetched false (set_path (Some d) m0))
                  end.
Proof.
  destruct args as [par u src fetchto]. simpl. intros Hsrc.
  unfold init_config, resolved_path. simpl.
  destruct src; [| | |done]; simpl;
    [destruct (svn_parse u) as [u' r]
    |destruct (url_parse u) as [[[u' b] r] lo]
    |destruct (url_parse u) as [[[u' b] r] lo]]; simpl;
    match goal with
    | |- context [(Raise _, ?X)] => exists X
    end; (do 5 (split; [reflexivity |]));
    intros fs; rewrite exists_and_lists_node;
    match goal with
    | |- ?L = match fs !! ?q with _ => _ end =>
        match L with
        | context [fs !! ?q'] =>
            change q' with q; destruct (fs !! q) as [[[|e l]|]|]
        end
    end; reflexivity.
Qed.

Lemma configured_path (fs : FS) (self m : Module) (args : ModuleArgs) :
  init fs self args = Ok m → is_Some (path m).
Proof.
  unfold configured.
  destruct (decide (arg_source args = local)) as [Hl|Hr].
  - destruct args as [par u src fetchto]. simpl in Hl. subst src.
    unfold init_config. simpl.
    destruct (os_path_exists fs u); simpl; [|done]. intros [= <-]. eauto.
  - destruct (init_config_remote self args Hr) as (m0 & _ & _ & _ & _ & _ & H).
    rewrite H.
    match goal with
    | |- context [fs !! ?q] => destruct (fs !! q) as [[l|]|]
    end; simpl; [|done|]; destruct (arg_parent args); simpl; try done;
      intros [= <-]; eauto.
Qed.

(** Claim C4. For a module of source [local], [init_config] raises
    exactly when the url does not exist on disk, and otherwise sets
    [isfetched]. For any other source it sets [isfetched] to true exactly
    when the resolved path is a directory with at least one entry, and to
    false otherwise; only when the path is a file that is not a directory
    the listing raises before the flag is assigned, and the flag stays as
    [__init__] left it. After the assignment the call returns when the
    module has a parent, and raises on [self.parent.path] when it has
    none. *)
Theorem init_config_isfetched (fs : FS) (self : Module)
    (module_args : ModuleArgs) :
  let '(r, m) := init_run fs self module_args in
  match arg_source module_args with
  | local =>
      (r = Ok () ↔ is_Some (fs !! arg_url module_args))
      ∧ (r = Ok () → isfetched m = true)
      ∧ (fs !! arg_url module_args = None →
         r = Raise (local_missing str_parent (arg_url module_args)
                      (arg_parent module_args))
         ∧ isfetched m = isfetched self)
  | _ =>
      let d := resolved self (arg_source module_args)
                 (arg_url module_args) (arg_fetchto module_args) in
      match fs !! d with
      | Some RegularFile =>
          r = Raise (NotADirectoryError d)
          ∧ isfetched m = isfetched self ∧ path m = path self
      | _ =>
          path m = Some d
          ∧ (isfetched m = true
             ↔ ∃ e entries, fs !! d = Some (Directory (e :: entries)))
          ∧ r = parent_path_logged (arg_parent module_args)
      end
  end.
Proof.
  destruct (decide (arg_source module_args = local)) as [Hl|Hr].
  - destruct module_args as [par u src fetchto]. simpl in Hl. subst src.
    unfold init_config. simpl. unfold os_path_exists.
    case_bool_decide as Hu; simpl.
    + split; [by split |]. split; [done |].
      intros Hn. rewrite Hn in Hu. by destruct Hu.
    + split; [split; [done | by intros ?] |]. split; [done |].
      by intros _.
  - destruct (init_config_remote self module_args Hr)
      as (m0 & _ & _ & Hp & Hf & _ & H).
    rewrite H. clear H.
    destruct module_args as [par u src fetchto]. simpl in *.
    destruct src; [| | |done];
      match goal with
      | |- context [fs !! ?q] =>
          destruct (fs !! q) as [[[|e l]|]|]; simpl
      end;
      repeat split; try done; eauto;
      try (by intros (? & ? & ?)).
Qed.

End config_facts.

Section manifest_facts.
Variable str_lower : string → string.

Lemma process_universal_ok (parent_obj : option Module) (self : Module)
    (d : gmap string string) :
  manifest_dict self = Some d →
  ∃ self', _process_manifest_universal str_lower parent_obj self = Ok self'
           ∧ library self'
             = match library_overide self, d !! "library", parent_obj with
               | Some lo, _, _ => lo
               | None, Some l, _ => l
               | None, None, Some p => library p
               | None, None, None => library self
               end
           ∧ parent self' = parent self
           ∧ library_overide self' = library_overide self
           ∧ manifest_dict self' = manifest_dict self.
Proof.
  intros Hd. unfold _process_manifest_universal.
  destruct (library_overide self) as [lo|] eqn:Hlo; simpl.
  - rewrite Hd. destruct (d !! "action"); eexists; (split; [done |]);
      by simpl.
  - rewrite Hd. destruct (d !! "library") as [l|]; simpl.
    + rewrite Hd. destruct (d !! "action"); eexists; (split; [done |]);
        by simpl.
    + destruct parent_obj as [p|]; simpl; rewrite Hd;
        destruct (d !! "action"); eexists; (split; [done |]); by simpl.
Qed.

Lemma process_manifest_frame (st st' : Store) (id j : ObjId) :
  process_manifest str_lower st id = Ok st' → j ≠ id → st' !! j = st !! j.
Proof.
  unfold process_manifest. destruct (st !! id) as [self|]; [|by intros [= <-]].
  destruct (_process_manifest_universal str_lower _ self) as [self'|]; simpl;
    [|done].
  intros [= <-] Hne. by rewrite list_lookup_insert_ne.
Qed.

Lemma process_all_frame (ids : list ObjId) (st st' : Store) (j : ObjId) :
  process_all str_lower st ids = Ok st' → j ∉ ids → st' !! j = st !! j.
Proof.
  revert st. induction ids as [|id ids IH]; intros st; simpl.
  - by intros [= <-].
  - destruct (process_manifest str_lower st id) as [st1|] eqn:H1; simpl;
      [|done].
    intros H Hj. apply not_elem_of_cons in Hj as [Hne Hj].
    rewrite (IH _ H Hj). by eapply process_manifest_frame.
Qed.

Lemma inheritance_chain_frame (chain : list ObjId) (st st1 : Store)
    (p : ObjId) :
  is_Some (st1 !! p) →
  (∀ j, j ∈ chain → st1 !! j = st !! j) →
  inheritance_chain st p chain = true →
  inheritance_chain st1 p chain = true.
Proof.
  revert p. induction chain as [|c rest IH]; intros p Hp Hsame; simpl.
  - intros _. rewrite andb_true_r. by apply bool_decide_eq_true_2.
  - rewrite (Hsame c) by (apply elem_of_cons; by left).
    rewrite !andb_true_iff. intros (_ & (Hnin & Hc) & Hrest).
    repeat split; try done; [by apply bool_decide_eq_true_2 |].
    apply IH; [| |done].
    + rewrite (Hsame c) by (apply elem_of_cons; by left).
      destruct rest; simpl in Hrest; rewrite ?andb_true_iff in Hrest;
        [destruct Hrest as [Hs _] | destruct Hrest as (Hs & _)];
        by apply bool_decide_eq_true in Hs.
    + intros j Hj. apply Hsame. apply elem_of_cons. by right.
Qed.

Lemma inheritance_chain_library (chain : list ObjId) (st : Store)
    (p : ObjId) :
  inheritance_chain st p chain = true →
  ∃ st', process_all str_lower st chain = Ok st'
         ∧ st' !! p = st !! p
         ∧ ∀ c, c ∈ chain → library <$> st' !! c = library <$> st !! p.
Proof.
  revert st p. induction chain as [|c rest IH]; intros st p; simpl.
  - intros _. exists st. repeat split; [done..|]. by intros c ?%elem_of_nil.
  - rewrite !andb_true_iff.
    intros (Hp & (Hnin & Hc) & Hrest).
    apply bool_decide_eq_true in Hp as [pm Hp], Hnin.
    apply not_elem_of_cons in Hnin as [Hpc Hprest].
    destruct (st !! c) as [m|] eqn:Hm; [|done].
    apply andb_true_iff in Hc as [Hc Hd].
    apply andb_true_iff in Hc as [Hpar Hlo].
    apply bool_decide_eq_true in Hpar, Hlo.
    destruct (manifest_dict m) as [d|] eqn:Hdict; [|done].
    apply bool_decide_eq_true in Hd.
    destruct (process_universal_ok (Some pm) m d Hdict)
      as (m' & Hm' & Hlib & Hpar' & Hlo' & Hdict').
    rewrite Hlo, Hd in Hlib.
    assert (H1 : process_manifest str_lower st c = Ok (<[c := m']> st)).
    { unfold process_manifest. rewrite Hm, Hpar. simpl. rewrite Hp, Hm'.
      done. }
    rewrite H1. simpl.
    assert (Hc1 : (<[c := m']> st) !! c = Some m').
    { apply list_lookup_insert_eq. by eapply lookup_lt_Some. }
    assert (Hcrest : c ∉ rest).
    { destruct rest as [|c2 rest']; [by intros ?%elem_of_nil |].
      simpl in Hrest. rewrite !andb_true_iff in Hrest.
      destruct Hrest as (_ & (Hn & _) & _).
      by apply bool_decide_eq_true in Hn. }
    destruct (IH (<[c := m']> st) c) as (st' & Hall & Hc' & Hlibs).
    { apply (inheritance_chain_frame rest st); [by rewrite Hc1 | | done].
      intros j Hj. rewrite list_lookup_insert_ne; [done |]. by intros ->. }
    exists st'. split; [done |]. split.
    + rewrite (process_all_frame _ _ _ _ Hall Hprest).
      by rewrite list_lookup_insert_ne.
    + intros x [->|Hx]%elem_of_cons.
      * by rewrite Hc', Hc1, Hp; simpl; rewrite Hlib.
      * by rewrite (Hlibs x Hx), Hc1, Hp; simpl; rewrite Hlib.
Qed.

End manifest_facts.

Section library_facts.
Variable str_lower : string → string.
Variable svn_parse : string → string * option string.
Variable url_parse :
  string → string * option string * option string * option string.
Variable svn_basename : string → string.
Variable url_basename : string → string.
Variable relpath : string → string.
Variable abspath : string → string.
Variable join : string → string → string.
Variable str_parent : option ObjId → string.

Local Abbreviation init :=
  (configured svn_parse url_parse svn_basename url_basename relpath
     abspath join str_parent).

Lemma init_config_library (fs : FS) (self : Module) (args : ModuleArgs) :
  match init fs self args with
  | Ok m => library m = library self
  | Raise _ => True
  end.
Proof.
  unfold configured.
  destruct (decide (arg_source args = local)) as [Hl|Hr].
  - destruct args as [par u src fetchto]. simpl in Hl. subst src.
    unfold init_config. simpl. by destruct (os_path_exists fs u).
  - destruct (init_config_remote svn_parse url_parse svn_basename
                url_basename relpath abspath join str_parent self args Hr)
      as (m0 & _ & _ & _ & _ & Hlib & H).
    rewrite H.
    match goal with
    | |- context [fs !! ?q] => destruct (fs !! q) as [[l|]|]
    end; simpl; [|done|]; by destruct (arg_parent args).
Qed.

(** Claim C5. The library of a module after its manifest is processed is
    the library override if there is one, else the [library] key of its
    manifest, else the library of its parent, else what it was before,
    which is ["work"] for a module just built; along a chain of
    sub-modules with neither override nor key every module ends with the
    library of the module at the top of the chain; a source file built
    with no library, or an empty one, is in ["work"]. *)
Theorem library_resolution
    (parent_obj : option Module) (self : Module) (d : gmap string string)
    (st : Store) (p : ObjId) (chain : list ObjId)
    (fs : FS) (args : ModuleArgs)
    (c : srcfile.FileClass) (f : string) (m : srcfile.ModRef) :
  manifest_dict self = Some d →
  inheritance_chain st p chain = true →
  (∃ self', _process_manifest_universal str_lower parent_obj self = Ok self'
            ∧ library self'
              = match library_overide self, d !! "library", parent_obj with
                | Some lo, _, _ => lo
                | None, Some l, _ => l
                | None, None, Some par => library par
                | None, None, None => library self
                end)
  ∧ match init fs new_module args with
    | Ok fresh => library fresh = "work"
    | Raise _ => True
    end
  ∧ (∃ st', process_all str_lower st chain = Ok st'
            ∧ ∀ sub, sub ∈ chain →
                     library <$> st' !! sub = library <$> st !! p)
  ∧ srcfile.library (srcfile.SourceFile_init c f m None) = Some "work"
  ∧ srcfile.library (srcfile.SourceFile_init c f m (Some "")) = Some "work".
Proof.
  intros Hd Hchain. repeat split.
  - destruct (process_universal_ok str_lower parent_obj self d Hd)
      as (self' & H1 & H2 & _). eauto.
  - apply (init_config_library fs new_module args).
  - destruct (inheritance_chain_library str_lower chain st p Hchain)
      as (st' & H1 & _ & H3). eauto.
Qed.

End library_facts.

Import pool_examples more_examples.

Lemma library_resolution_witness :
  (manifest_dict
     (a_module git (Some 0) "git://host/a" "ip/a" true (Some ∅) [])
   = Some ∅
   ∧ inheritance_chain library_store 0 [1; 2] = true)
  ∧ (∃ self',
       _process_manifest_universal lower (library_store !! 0)
         (a_module git (Some 0) "git://host/a" "ip/a" true (Some ∅) [])
       = Ok self'
       ∧ library self' = "cores")
  ∧ (∃ st', process_all lower library_store [1; 2] = Ok st'
            ∧ ∀ sub, sub ∈ [1; 2] →
                     library <$> st' !! sub = Some "cores").
Proof.
  split; [by split |].
  destruct (library_resolution lower ex_svn_parse ex_url_parse ex_basename
              ex_basename ex_same ex_same ex_join ex_str_parent
              (library_store !! 0)
              (a_module git (Some 0) "git://host/a" "ip/a" true (Some ∅) [])
              ∅ library_store 0 [1; 2] diamond_fs
              (mkModuleArgs (Some 0) "git://host/a" git "ip")
              srcfile.VHDLFile "a.vhd" 1 eq_refl eq_refl)
    as (H1 & _ & H3 & _).
  split; [exact H1 | exact H3].
Defined.

Example init_config_on_disk :
  isfetched <$> (match configured ex_svn_parse ex_url_parse ex_basename
                         ex_basename ex_same ex_same ex_join ex_str_parent
                         diamond_fs new_module
                         (mkModuleArgs (Some 0) "git://host/b" git "ip") with
                 | Ok m => Some m
                 | Raise _ => None
                 end)
  = Some true.
Proof. reflexivity. Qed.

Example init_config_not_on_disk :
  isfetched <$> (match configured ex_svn_parse ex_url_parse ex_basename
                         ex_basename ex_same ex_same ex_join ex_str_parent
                         diamond_fs new_module
                         (mkModuleArgs (Some 1) "git://host/d" git "ip") with
                 | Ok m => Some m
                 | Raise _ => None
                 end)
  = Some false.
Proof. reflexivity. Qed.

Example init_config_local_missing :
  configured ex_svn_parse ex_url_parse ex_basename ex_basename ex_same
    ex_same ex_join ex_str_parent diamond_fs new_module
    (mkModuleArgs (Some 0) "nowhere" local "ip")
  = Raise (local_missing ex_str_parent "nowhere" (Some 0)).
Proof. reflexivity. Qed.

(** A module that is not local and has no parent: the flag is assigned,
    then the logging call raises. *)
Example init_config_without_parent :
  (let '(r, m) :=
     init_config ex_svn_parse ex_url_parse ex_basename ex_basename ex_same
       ex_same ex_join ex_str_parent diamond_fs new_module
       (mkModuleArgs None "git://host/b" git "ip") in
   (r, isfetched m, path m))
  = (Raise no_parent_path, true, Some "ip/b").
Proof. reflexivity. Qed.

(** The resolved path is a file that is not a directory. *)
Example init_config_on_a_file :
  (let '(r, m) :=
     init_config ex_svn_parse ex_url_parse ex_basename ex_basename ex_same
       ex_same ex_join ex_str_parent (<["ip/d" := RegularFile]> diamond_fs)
       new_module d_of_b in
   (r, isfetched m, path m))
  = (Raise (NotADirectoryError "ip/d"), false, None).
Proof. reflexivity. Qed.

End core_props.

(** ** Properties of [action/commands.py] *)

Module commands_props.
Import core commands commands_more.

Lemma pop_snoc (q : list ObjId) (x : ObjId) : pop (q ++ [x]) = Some (x, q).
Proof. unfold pop. by rewrite reverse_snoc, reverse_involutive. Qed.

Lemma pop_Some (q r : list ObjId) (x : ObjId) :
  pop q = Some (x, r) → q = r ++ [x].
Proof.
  unfold pop. destruct (reverse q) as [|y t] eqn:Hq; [done |].
  intros [= -> <-]. rewrite <- (reverse_involutive q), Hq.
  by rewrite reverse_cons.
Qed.

Lemma pop_None (q : list ObjId) : pop q = None → q = [].
Proof.
  unfold pop. destruct (reverse q) as [|x r] eqn:Hq; [|done]. intros _.
  by rewrite <- (reverse_involutive q), Hq.
Qed.

Section action_facts.

Variable str_lower : string → string.
Variable svn_parse : string → string * option string.
Variable url_parse :
  string → string * option string * option string * option string.
Variable svn_basename : string → string.
Variable url_basename : string → string.
Variable relpath : string → string.
Variable abspath : string → string.
Variable join : string → string → string.
Variable str_parent : option ObjId → string.
Variable manifest_at : option string → Manifest.
Variable checkout : Source → Module → option (list string).

Local Abbreviation parse :=
  (parse_manifest str_lower svn_parse url_parse svn_basename url_basename
     relpath abspath join str_parent manifest_at).
Local Abbreviation fetch_module :=
  (_fetch_module str_lower svn_parse url_parse svn_basename url_basename
     relpath abspath join str_parent manifest_at checkout).
Local Abbreviation loop :=
  (fetch_loop str_lower svn_parse url_parse svn_basename url_basename
     relpath abspath join str_parent manifest_at checkout).
Local Abbreviation fetch_all :=
  (_fetch_all str_lower svn_parse url_parse svn_basename url_basename
     relpath abspath join str_parent manifest_at checkout).

(** One iteration of the loop. *)
Lemma fetch_loop_step (fuel : nat) (q : list ObjId) (cur : ObjId)
    (p : Pool) :
  loop (S fuel) (q ++ [cur]) p
  = let '(r, p1) :=
      (if is_fetched p cur then mret (submodules_of p cur)
       else fetch_module cur) p in
    match r with
    | Raise e => (Some (Raise e), p1)
    | Ok new_modules =>
        let '(q', p2) := foldl visit (q, p1) new_modules in
        loop fuel q' p2
    end.
Proof. simpl. by rewrite pop_snoc. Qed.

Lemma fetch_module_failure (cur : ObjId) (p : Pool) (m : Module)
    (kind : Source) :
  store p !! cur = Some m →
  source m = Some kind → kind ≠ local →
  checkout kind m = None →
  fetch_module cur p
  = (Raise (unable_to_fetch (url m)),
     log_event (BackendFetch kind cur (path m)) p).
Proof.
  intros Hm Hsrc Hkind Hco.
  unfold _fetch_module, mbind, M_bind, get_pool. simpl.
  rewrite Hm. simpl. rewrite Hsrc.
  destruct kind; [| | |done]; simpl; unfold backend_fetch;
    rewrite Hm, Hco; done.
Qed.

(** Claim C3. When the module popped from the fetch queue is not fetched
    and the backend of its source kind returns false, the loop stops at
    once with the exception whose arguments are the message and the url
    of the module; the pool is the one before the iteration with that
    single backend call added to the trace. *)
Theorem fetch_failure_aborts (fuel : nat) (q : list ObjId) (cur : ObjId)
    (p : Pool) (m : Module) (kind : Source) :
  store p !! cur = Some m →
  isfetched m = false →
  source m = Some kind → kind ≠ local →
  checkout kind m = None →
  loop (S fuel) (q ++ [cur]) p
  = (Some (Raise (Exception ["Unable to fetch module %s";
                             default "None" (url m)])),
     log_event (BackendFetch kind cur (path m)) p).
Proof.
  intros Hm Hf Hsrc Hkind Hco. rewrite fetch_loop_step.
  unfold is_fetched. rewrite Hm. simpl. rewrite Hf.
  by rewrite (fetch_module_failure cur p m kind).
Qed.


(** *** Registration and the work queue *)

Lemma add_fields (c : ObjId) (p : Pool) :
  store (_add c p) = store p ∧ fs (_add c p) = fs p
  ∧ events (_add c p) = events p.
Proof. unfold _add. by case_bool_decide. Qed.

Lemma path_of_store (p p' : Pool) (c : ObjId) :
  store p' = store p → path_of p' c = path_of p c.
Proof. unfold path_of. by intros ->. Qed.

Lemma is_fetched_store (p p' : Pool) (c : ObjId) :
  store p' = store p → is_fetched p' c = is_fetched p c.
Proof. unfold is_fetched. by intros ->. Qed.

Lemma add_all_fields (l : list ObjId) (p : Pool) :
  store (add_all p l) = store p ∧ fs (add_all p l) = fs p
  ∧ events (add_all p l) = events p.
Proof.
  revert p. induction l as [|c l IH]; intros p; simpl; [done |].
  destruct (IH (_add c p)) as (-> & -> & ->). apply add_fields.
Qed.

Lemma add_mono (c x : ObjId) (p : Pool) :
  x ∈ manifests p → x ∈ manifests (_add c p).
Proof.
  unfold _add. case_bool_decide; simpl; [done |].
  intros Hx. apply elem_of_app. by left.
Qed.

Lemma add_all_mono (l : list ObjId) (p : Pool) (x : ObjId) :
  x ∈ manifests p → x ∈ manifests (add_all p l).
Proof.
  revert p. induction l as [|c l IH]; intros p Hx; simpl; [done |].
  by apply IH, add_mono.
Qed.

Lemma add_all_only (l : list ObjId) (p : Pool) (x : ObjId) :
  x ∈ manifests (add_all p l) → x ∈ manifests p ∨ x ∈ l.
Proof.
  revert p. induction l as [|c l IH]; intros p; simpl; [by left |].
  intros [Hx|Hx]%IH.
  - unfold _add in Hx. case_bool_decide; simpl in Hx; [by left |].
    apply elem_of_app in Hx as [Hx|Hx%list_elem_of_singleton];
      [by left | right; subst; by left].
  - right. by right.
Qed.

Lemma add_registered (c : ObjId) (p : Pool) : registered (_add c p) c.
Proof.
  unfold registered.
  assert (Hp : ∀ x, path_of (_add c p) x = path_of p x).
  { intros x. apply path_of_store, add_fields. }
  unfold _add at 3. case_bool_decide as Hex; simpl.
  - eapply Exists_impl; [exact Hex |]. intros x Hx. by rewrite !Hp.
  - apply Exists_app. right. by constructor.
Qed.

Lemma registered_mono (p p' : Pool) (c : ObjId) :
  store p' = store p →
  (∀ x, x ∈ manifests p → x ∈ manifests p') →
  registered p c → registered p' c.
Proof.
  intros Hst Hms. unfold registered. rewrite !Exists_exists.
  intros (x & Hx & Hpath). exists x. split; [by apply Hms |].
  by rewrite !(path_of_store p p') by done.
Qed.

Lemma add_all_registered (l : list ObjId) (p : Pool) (c : ObjId) :
  c ∈ l → registered (add_all p l) c.
Proof.
  revert p. induction l as [|d l IH]; intros p; [by intros ?%elem_of_nil |].
  intros [Heq|Hc]%elem_of_cons; simpl; [subst d|by apply IH].
  apply (registered_mono (_add c p)).
  - destruct (add_all_fields l (_add c p)) as (-> & _). done.
  - intros x. apply add_all_mono.
  - apply add_registered.
Qed.

Lemma foldl_visit (new q : list ObjId) (p : Pool) :
  foldl visit (q, p) new
  = (q ++ filter (λ c, is_fetched p c = false) new,
     add_all p (filter (λ c, is_fetched p c = false) new)).
Proof.
  revert q p. induction new as [|c new IH]; intros q p; simpl.
  - by rewrite app_nil_r.
  - rewrite filter_cons. case_decide as Hc.
    2: { destruct (is_fetched p c) eqn:Hc'; [|done]. simpl. by rewrite IH. }
    rewrite Hc. simpl. rewrite IH, <- app_assoc. simpl.
    assert (Hf : ∀ x, is_fetched (_add c p) x = is_fetched p x).
    { intros x. apply is_fetched_store, add_fields. }
    assert (Hfil : filter (λ c0, is_fetched (_add c p) c0 = false) new
                   = filter (λ c0, is_fetched p c0 = false) new).
    { apply list_filter_iff. intros x. by rewrite Hf. }
    by rewrite Hfil.
Qed.


(** *** The modules fetched during a run *)

Lemma stable_refl (p : Pool) : stable p p.
Proof. by split. Qed.

Lemma stable_trans (p1 p2 p3 : Pool) :
  stable p1 p2 → stable p2 p3 → stable p1 p3.
Proof.
  intros [He1 Hf1] [He2 Hf2]. split; [congruence | auto].
Qed.

Lemma keeps_bind {A B} (c : M A) (k : A → M B) :
  keeps c → (∀ a, keeps (k a)) → keeps (c ≫= k).
Proof.
  intros Hc Hk p. unfold mbind, M_bind.
  specialize (Hc p). destruct (c p) as [[a|e] p'] eqn:Hcp; simpl in *.
  - eapply stable_trans; [exact Hc | apply Hk].
  - done.
Qed.

Lemma keeps_ret {A} (a : A) : keeps (mret a).
Proof. intros p. apply stable_refl. Qed.

Lemma keeps_get : keeps get_pool.
Proof. intros p. apply stable_refl. Qed.

Lemma keeps_raise {A} (e : PyExn) : keeps (@raise A e).
Proof. intros p. apply stable_refl. Qed.

Lemma keeps_update (id : ObjId) (f : Module → Module) :
  (∀ m, isfetched (f m) = isfetched m) → keeps (update_module id f).
Proof.
  intros Hf p. split; [done |]. intros j. unfold is_fetched. simpl.
  destruct (decide (j = id)) as [->|Hne].
  - rewrite list_lookup_alter_eq. destruct (store p !! id); simpl; [|done].
    by rewrite Hf.
  - by rewrite list_lookup_alter_ne.
Qed.

Lemma process_universal_isfetched (po : option Module) (self self' : Module) :
  _process_manifest_universal str_lower po self = Ok self' →
  isfetched self' = isfetched self.
Proof.
  unfold _process_manifest_universal.
  repeat (case_match; simpl; try done); intros; simplify_eq; done.
Qed.

Lemma keeps_process (id : ObjId) :
  keeps (process_manifest_of str_lower id).
Proof.
  intros p. unfold process_manifest_of, process_manifest.
  destruct (store p !! id) as [self|] eqn:Hs; simpl.
  - destruct (_process_manifest_universal str_lower _ self) as [self'|] eqn:Hu;
      simpl; [|apply stable_refl].
    split; [done |]. intros j. unfold is_fetched. simpl.
    destruct (decide (j = id)) as [->|Hne].
    + rewrite list_lookup_insert_eq by (by eapply lookup_lt_Some).
      rewrite Hs. simpl. by rewrite (process_universal_isfetched _ _ _ Hu).
    + by rewrite list_lookup_insert_ne.
  - split; [done |]. by destruct p.
Qed.

Lemma keeps_new_child (par : ObjId) (fetchto : string) (src : Source)
    (u : string) :
  keeps (new_child svn_parse url_parse svn_basename url_basename relpath
           abspath join str_parent par fetchto src u).
Proof.
  intros p. unfold new_child.
  destruct (configured _ _ _ _ _ _ _ _ _ _ _) as [m|]; simpl;
    [|apply stable_refl].
  destruct (add_fields (List.length (store p))
              (set_store (store p ++ [m]) p)) as (Hs & _ & He).
  split; [by rewrite He |]. intros j. unfold is_fetched. rewrite Hs. simpl.
  destruct (store p !! j) as [mj|] eqn:Hj; [|done].
  by rewrite (lookup_app_l_Some _ _ _ _ Hj).
Qed.

Lemma keeps_new_children (par : ObjId) (fetchto : string) (src : Source)
    (urls : list string) :
  keeps (new_children svn_parse url_parse svn_basename url_basename
           relpath abspath join str_parent par fetchto src urls).
Proof.
  induction urls as [|u urls IH]; simpl; [apply keeps_ret |].
  apply keeps_bind; [apply keeps_new_child |]. intros c.
  apply keeps_bind; [apply IH |]. intros cs. apply keeps_ret.
Qed.

Lemma keeps_declared (par : ObjId) (fetchto : string)
    (decls : list (Source * list string)) :
  keeps (declared_modules svn_parse url_parse svn_basename url_basename
           relpath abspath join str_parent par fetchto decls).
Proof.
  induction decls as [|[src urls] decls IH]; simpl; [apply keeps_ret |].
  apply keeps_bind; [apply keeps_new_children |]. intros cs.
  apply keeps_bind; [apply IH |]. intros rest. apply keeps_ret.
Qed.

Lemma keeps_parse (id : ObjId) : keeps (parse id).
Proof.
  unfold parse_manifest.
  apply keeps_bind; [apply keeps_get |]. intros p0.
  apply keeps_bind; [by apply keeps_update |]. intros _.
  apply keeps_bind; [apply keeps_process |]. intros _.
  apply keeps_bind; [apply keeps_declared |]. intros kids.
  by apply keeps_update.
Qed.


(** *** What only grows during a run *)

Lemma same_identity_refl (m : Module) : same_identity m m.
Proof. by repeat split. Qed.

Lemma same_identity_trans (m1 m2 m3 : Module) :
  same_identity m1 m2 → same_identity m2 m3 → same_identity m1 m3.
Proof.
  intros (? & ? & ? & ? & ? & ? & ? & ?) (? & ? & ? & ? & ? & ? & ? & ?).
  repeat split; try congruence. auto.
Qed.

Lemma extends_refl (p : Pool) : extends p p.
Proof.
  split; [exists []; by rewrite app_nil_r |]. split; [done |].
  split; [done |]. intros id m Hm. exists m. split; [done |].
  apply same_identity_refl.
Qed.

Lemma extends_trans (p1 p2 p3 : Pool) :
  extends p1 p2 → extends p2 p3 → extends p1 p3.
Proof.
  intros ((c1 & He1 & Hc1) & Hm1 & Hf1 & Hs1)
         ((c2 & He2 & Hc2) & Hm2 & Hf2 & Hs2).
  split; [|split; [|split]].
  - exists (c1 ++ c2). rewrite He2, He1, app_assoc. split; [done |].
    by apply Forall_app.
  - by etrans.
  - auto.
  - intros id m Hm. destruct (Hs1 id m Hm) as (m' & Hm' & Hi).
    destruct (Hs2 id m' Hm') as (m'' & Hm'' & Hi'). exists m''.
    split; [done |]. by eapply same_identity_trans.
Qed.

Lemma extending_bind {A B} (c : M A) (k : A → M B) :
  extending c → (∀ a, extending (k a)) → extending (c ≫= k).
Proof.
  intros Hc Hk p. unfold mbind, M_bind.
  specialize (Hc p). destruct (c p) as [[a|e] p']; simpl in *; [|done].
  eapply extends_trans; [exact Hc | apply Hk].
Qed.

Lemma extending_ret {A} (a : A) : extending (mret a).
Proof. intros p. apply extends_refl. Qed.

Lemma extending_get : extending get_pool.
Proof. intros p. apply extends_refl. Qed.

Lemma extending_raise {A} (e : PyExn) : extending (@raise A e).
Proof. intros p. apply extends_refl. Qed.

(** A change of the store that keeps the identity of every object. *)
Lemma extends_store (p : Pool) (st : Store) :
  (∀ id m, store p !! id = Some m →
           ∃ m', st !! id = Some m' ∧ same_identity m m') →
  extends p (set_store st p).
Proof.
  intros Hst. split; [exists []; by rewrite app_nil_r |].
  split; [done |]. split; [done |]. exact Hst.
Qed.

Lemma extending_update (id : ObjId) (f : Module → Module) :
  (∀ m, same_identity m (f m)) → extending (update_module id f).
Proof.
  intros Hf p. apply extends_store. intros j m Hm.
  destruct (decide (j = id)) as [->|Hne].
  - exists (f m). by rewrite list_lookup_alter_eq, Hm.
  - exists m. rewrite list_lookup_alter_ne by done.
    split; [done | apply same_identity_refl].
Qed.

Lemma process_universal_identity (po : option Module) (self self' : Module) :
  _process_manifest_universal str_lower po self = Ok self' →
  same_identity self self'.
Proof.
  unfold _process_manifest_universal.
  destruct self as [src par u b r pa f lo l a d ms]; simpl.
  destruct lo as [lo|], d as [d|]; simpl; try done.
  - destruct (d !! "action"); simpl; intros [= <-]; by repeat split.
  - destruct (d !! "library"); simpl;
      [|destruct po; simpl]; destruct (d !! "action"); simpl;
      intros [= <-]; by repeat split.
Qed.

Lemma extending_process (id : ObjId) :
  extending (process_manifest_of str_lower id).
Proof.
  intros p. unfold process_manifest_of, process_manifest.
  destruct (store p !! id) as [self|] eqn:Hs; simpl.
  - destruct (_process_manifest_universal _ _ self) as [self'|] eqn:Hu;
      simpl; [|apply extends_refl].
    apply extends_store. intros j m Hm.
    destruct (decide (j = id)) as [->|Hne].
    + exists self'.
      rewrite list_lookup_insert_eq by (by eapply lookup_lt_Some).
      split; [done |]. rewrite Hs in Hm. injection Hm as <-.
      by eapply process_universal_identity.
    + exists m. rewrite list_lookup_insert_ne by done.
      split; [done | apply same_identity_refl].
  - apply extends_store. intros j m Hm. exists m.
    split; [done | apply same_identity_refl].
Qed.

Lemma extends_add (c : ObjId) (p : Pool) : extends p (_add c p).
Proof.
  unfold _add. case_bool_decide; [apply extends_refl |].
  split; [exists []; by rewrite app_nil_r |].
  split; [by apply prefix_app_r |]. split; [done |].
  intros j m Hm. exists m. split; [done | apply same_identity_refl].
Qed.

Lemma extends_add_all (p : Pool) (l : list ObjId) : extends p (add_all p l).
Proof.
  revert p. induction l as [|c l IH]; intros p; simpl; [apply extends_refl |].
  eapply extends_trans; [apply extends_add | apply IH].
Qed.

Lemma extending_new_child (par : ObjId) (fetchto : string) (src : Source)
    (u : string) :
  extending (new_child svn_parse url_parse svn_basename url_basename relpath
               abspath join str_parent par fetchto src u).
Proof.
  intros p. unfold new_child.
  destruct (configured _ _ _ _ _ _ _ _ _ _ _) as [m|]; simpl;
    [|apply extends_refl].
  eapply extends_trans; [|apply extends_add].
  apply extends_store. intros j mj Hj. exists mj.
  split; [by apply lookup_app_l_Some | apply same_identity_refl].
Qed.

Lemma extending_new_children (par : ObjId) (fetchto : string) (src : Source)
    (urls : list string) :
  extending (new_children svn_parse url_parse svn_basename url_basename
               relpath abspath join str_parent par fetchto src urls).
Proof.
  induction urls as [|u urls IH]; simpl; [apply extending_ret |].
  apply extending_bind; [apply extending_new_child |]. intros c.
  apply extending_bind; [apply IH |]. intros cs. apply extending_ret.
Qed.

Lemma extending_declared (par : ObjId) (fetchto : string)
    (decls : list (Source * list string)) :
  extending (declared_modules svn_parse url_parse svn_basename url_basename
               relpath abspath join str_parent par fetchto decls).
Proof.
  induction decls as [|[src urls] decls IH]; simpl; [apply extending_ret |].
  apply extending_bind; [apply extending_new_children |]. intros cs.
  apply extending_bind; [apply IH |]. intros rest. apply extending_ret.
Qed.

Lemma extending_parse (id : ObjId) : extending (parse id).
Proof.
  unfold parse_manifest.
  apply extending_bind; [apply extending_get |]. intros p0.
  apply extending_bind.
  { apply extending_update. intros m. by repeat split. }
  intros _.
  apply extending_bind; [apply extending_process |]. intros _.
  apply extending_bind; [apply extending_declared |]. intros kids.
  apply extending_update. intros m. by repeat split.
Qed.

Lemma extending_backend (kind : Source) (id : ObjId) :
  extending (backend_fetch checkout kind id).
Proof.
  intros p. unfold backend_fetch.
  destruct (store p !! id) as [m|] eqn:Hm; simpl; [|apply extends_refl].
  destruct (checkout kind m) as [entries|]; simpl.
  - split; [|split; [|split]]; simpl.
    + exists [BackendFetch kind id (path m)]. split; [done |].
      by repeat constructor.
    + done.
    + intros d Hd. destruct (path m) as [d0|]; [|done].
      destruct (decide (d0 = d)) as [->|Hne].
      * rewrite lookup_insert_eq. eauto.
      * by rewrite lookup_insert_ne.
    + intros j mj Hj. destruct (decide (j = id)) as [->|Hne].
      * exists (set_isfetched true m).
        rewrite list_lookup_insert_eq by (by eapply lookup_lt_Some).
        split; [done |]. rewrite Hm in Hj. injection Hj as <-.
        by repeat split.
      * exists mj. rewrite list_lookup_insert_ne by done.
        split; [done | apply same_identity_refl].
  - split; [|split; [|split]]; simpl.
    + exists [BackendFetch kind id (path m)]. split; [done |].
      by repeat constructor.
    + done.
    + done.
    + intros j mj Hj. exists mj. split; [done | apply same_identity_refl].
Qed.

Lemma extending_fetch_module (id : ObjId) : extending (fetch_module id).
Proof.
  unfold _fetch_module.
  apply extending_bind; [apply extending_get |]. intros p0.
  apply extending_bind.
  { destruct (source <$> store p0 !! id) as [[[| | |]|]|];
      first [apply extending_backend | apply extending_raise]. }
  intros b. destruct b; simpl; [|apply extending_raise].
  apply extending_bind; [apply extending_parse |]. intros _.
  apply extending_bind; [apply extending_get |]. intros p1.
  apply extending_ret.
Qed.

Lemma extends_loop (fuel : nat) :
  ∀ q p, extends p (loop fuel q p).2.
Proof.
  induction fuel as [|fuel IH]; intros q p.
  - simpl. destruct (pop q) as [[cur q']|]; apply extends_refl.
  - destruct (pop q) as [[cur q']|] eqn:Hpop.
    2: { simpl. rewrite Hpop. apply extends_refl. }
    apply pop_Some in Hpop as ->. rewrite fetch_loop_step.
    destruct (is_fetched p cur).
    + simpl. rewrite foldl_visit.
      eapply extends_trans; [apply extends_add_all | apply IH].
    + pose proof (extending_fetch_module cur p) as He.
      destruct (fetch_module cur p) as [[new|e] p1]; simpl in *; [|done].
      rewrite foldl_visit.
      eapply extends_trans; [exact He |].
      eapply extends_trans; [apply extends_add_all | apply IH].
Qed.

(** *** Registration by [parse_manifest] *)

Lemma bind_Ok {A B} (c : M A) (k : A → M B) (p p' : Pool) (b : B) :
  (c ≫= k) p = (Ok b, p') →
  ∃ a p1, c p = (Ok a, p1) ∧ k a p1 = (Ok b, p').
Proof.
  unfold mbind, M_bind. destruct (c p) as [[a|e] p1]; [eauto | done].
Qed.

Lemma extends_store_Some (p p' : Pool) (id : ObjId) :
  extends p p' → is_Some (store p !! id) → is_Some (store p' !! id).
Proof.
  intros (_ & _ & _ & Hst) [m Hm]. destruct (Hst id m Hm) as (m' & -> & _).
  eauto.
Qed.

Lemma extends_path (p p' : Pool) (c : ObjId) (d : string) :
  extends p p' → path_of p c = Some d → path_of p' c = Some d.
Proof.
  intros (_ & _ & _ & Hst). unfold path_of.
  destruct (store p !! c) as [m|] eqn:Hm; [|done]. simpl. intros Hp.
  destruct (Hst c m Hm) as (m' & -> & Hi). simpl.
  destruct Hi as (_ & _ & _ & _ & _ & Hpa & _). by rewrite Hpa.
Qed.

Lemma extends_manifests (p p' : Pool) (x : ObjId) :
  extends p p' → x ∈ manifests p → x ∈ manifests p'.
Proof.
  intros (_ & [k ->] & _) Hx. apply elem_of_app. by left.
Qed.

(** A module with a resolved path stays registered. *)
Lemma registered_extends (p p' : Pool) (c : ObjId) :
  extends p p' → is_Some (path_of p c) → registered p c →
  registered p' c ∧ is_Some (path_of p' c).
Proof.
  intros Hext [d Hd] Hreg.
  pose proof (extends_path p p' c d Hext Hd) as Hd'.
  split; [|by rewrite Hd'].
  unfold registered in *. rewrite Exists_exists in *.
  destruct Hreg as (x & Hx & Hpx). exists x.
  split; [by eapply extends_manifests |].
  rewrite Hd in Hpx. by rewrite (extends_path p p' x d Hext Hpx), Hd'.
Qed.

Lemma new_child_registers (par : ObjId) (fetchto : string) (src : Source)
    (u : string) (p p' : Pool) (c : ObjId) :
  new_child svn_parse url_parse svn_basename url_basename relpath abspath
    join str_parent par fetchto src u p = (Ok c, p') →
  (registered p' c ∧ is_Some (path_of p' c))
  ∧ ∀ x, x ∈ manifests p' → x ∈ manifests p ∨ x = c.
Proof.
  unfold new_child.
  destruct (configured _ _ _ _ _ _ _ _ _ _ _) as [m|] eqn:Hc; [|done].
  intros [= <- <-]. split; [split|].
  - apply add_registered.
  - rewrite (path_of_store (set_store (store p ++ [m]) p))
      by apply add_fields.
    unfold path_of. simpl. rewrite list_lookup_middle by done. simpl.
    by eapply core_props.configured_path.
  - intros x Hx. unfold _add in Hx. case_bool_decide; simpl in Hx;
      [by left |].
    apply elem_of_app in Hx as [Hx|Hx%list_elem_of_singleton];
      [by left | by right].
Qed.

Lemma new_children_registers (par : ObjId) (fetchto : string) (src : Source)
    (urls : list string) :
  ∀ p cs p',
    new_children svn_parse url_parse svn_basename url_basename relpath
      abspath join str_parent par fetchto src urls p = (Ok cs, p') →
    (∀ c, c ∈ cs → registered p' c ∧ is_Some (path_of p' c))
    ∧ ∀ x, x ∈ manifests p' → x ∈ manifests p ∨ x ∈ cs.
Proof.
  induction urls as [|u urls IH]; simpl; intros p cs p' H.
  - injection H as <- <-. split; [by intros c ?%elem_of_nil | by left].
  - apply bind_Ok in H as (c & p1 & H1 & H2).
    apply bind_Ok in H2 as (cs' & p2 & H2 & H3). injection H3 as <- <-.
    destruct (new_child_registers _ _ _ _ _ _ _ H1) as ([Hr Hp] & Hm1).
    destruct (IH _ _ _ H2) as (Hcs & Hm2).
    pose proof (extending_new_children par fetchto src urls p1) as Hext.
    rewrite H2 in Hext. simpl in Hext. split.
    + intros x [->|Hx]%elem_of_cons; [|by apply Hcs].
      by apply (registered_extends p1 p2).
    + intros x Hx. destruct (Hm2 x Hx) as [Hx1|Hx1].
      * destruct (Hm1 x Hx1) as [?| ->]; [by left |]. right. by left.
      * right. by right.
Qed.

Lemma declared_registers (par : ObjId) (fetchto : string)
    (decls : list (Source * list string)) :
  ∀ p kids p',
    declared_modules svn_parse url_parse svn_basename url_basename relpath
      abspath join str_parent par fetchto decls p = (Ok kids, p') →
    (∀ c, c ∈ List.concat (snd <$> kids) →
          registered p' c ∧ is_Some (path_of p' c))
    ∧ ∀ x, x ∈ manifests p' →
           x ∈ manifests p ∨ x ∈ List.concat (snd <$> kids).
Proof.
  induction decls as [|[src urls] decls IH]; simpl; intros p kids p' H.
  - injection H as <- <-. split; [by intros c ?%elem_of_nil | by left].
  - apply bind_Ok in H as (cs & p1 & H1 & H2).
    apply bind_Ok in H2 as (rest & p2 & H2 & H3). injection H3 as <- <-.
    destruct (new_children_registers _ _ _ _ _ _ _ H1) as (Hcs & Hm1).
    destruct (IH _ _ _ H2) as (Hrest & Hm2).
    pose proof (extending_declared par fetchto decls p1) as Hext.
    rewrite H2 in Hext. simpl in Hext. split.
    + intros x Hx. simpl in Hx.
      apply elem_of_app in Hx as [Hx|Hx]; [|by apply Hrest].
      destruct (Hcs x Hx) as [Hr Hp]. by apply (registered_extends p1 p2).
    + intros x Hx. simpl. rewrite elem_of_app.
      destruct (Hm2 x Hx) as [Hx1|Hx1]; [|by auto].
      destruct (Hm1 x Hx1); auto.
Qed.

Lemma parse_registers (id : ObjId) (p p' : Pool) :
  parse id p = (Ok (), p') → is_Some (store p !! id) →
  (∀ c, c ∈ submodules_of p' id → registered p' c)
  ∧ ∀ x, x ∈ manifests p' → x ∈ manifests p ∨ x ∈ submodules_of p' id.
Proof.
  unfold parse_manifest. intros H Hid.
  apply bind_Ok in H as (p0 & p0' & H0 & H). injection H0 as <- <-.
  apply bind_Ok in H as ([] & p1 & H1 & H).
  apply bind_Ok in H as ([] & p2 & H2 & H).
  apply bind_Ok in H as (kids & p3 & H3 & H4).
  pose proof (extending_update id
                (set_manifest_dict (Some (m_dict (manifest_at (path_of p id)))))
                ltac:(by repeat split) p) as He1.
  rewrite H1 in He1. simpl in He1.
  pose proof (extending_process id p1) as He2. rewrite H2 in He2.
  simpl in He2.
  pose proof (extending_declared id
                (m_fetchto (manifest_at (path_of p id)))
                (m_modules (manifest_at (path_of p id))) p2) as He3.
  rewrite H3 in He3. simpl in He3.
  pose proof (extending_update id (set_modules kids)
                ltac:(by repeat split) p3) as He4.
  rewrite H4 in He4. simpl in He4.
  unfold update_module, modify in H1, H4.
  assert (Hm1 : manifests p1 = manifests p)
    by (injection H1 as H; by rewrite <- H).
  assert (Hm2 : manifests p2 = manifests p1).
  { unfold process_manifest_of in H2.
    destruct (process_manifest _ _ _); by simplify_eq. }
  assert (Hm4 : manifests p' = manifests p3)
    by (injection H4 as H; by rewrite <- H).
  destruct (declared_registers _ _ _ _ _ _ H3) as (Hkids & Hms).
  assert (Hsub : submodules_of p' id = List.concat (snd <$> kids)).
  { assert (Hid3 : is_Some (store p3 !! id)).
    { eapply extends_store_Some; [exact He3 |].
      eapply extends_store_Some; [exact He2 |].
      by eapply extends_store_Some. }
    destruct Hid3 as [m3 Hm3]. injection H4 as H. rewrite <- H.
    unfold submodules_of. simpl. by rewrite list_lookup_alter_eq, Hm3. }
  rewrite Hsub. split.
  - intros c Hc. destruct (Hkids c Hc) as [Hr Hp].
    by apply (registered_extends p3 p').
  - intros x Hx. rewrite Hm4 in Hx. rewrite <- Hm1, <- Hm2. by apply Hms.
Qed.

Lemma fetch_module_registers (cur : ObjId) (p p1 : Pool)
    (new : list ObjId) :
  fetch_module cur p = (Ok new, p1) →
  (∀ c, c ∈ new → registered p1 c)
  ∧ ∀ x, x ∈ manifests p1 → x ∈ manifests p ∨ x ∈ new.
Proof.
  unfold _fetch_module. intros H.
  apply bind_Ok in H as (p0 & p0' & H0 & H). injection H0 as <- <-.
  apply bind_Ok in H as (b & pb & Hb & H).
  destruct b; simpl in H; [|done].
  apply bind_Ok in H as ([] & p2 & Hp & H).
  apply bind_Ok in H as (p2' & p2'' & H2 & H). injection H2 as <- <-.
  injection H as <- <-.
  assert (Hback : manifests pb = manifests p ∧ is_Some (store pb !! cur)).
  { destruct (store p !! cur) as [m|] eqn:Hm; [|done].
    assert (Hk : ∀ kind, backend_fetch checkout kind cur p = (Ok true, pb) →
                         manifests pb = manifests p
                         ∧ is_Some (store pb !! cur)).
    { intros kind. unfold backend_fetch. rewrite Hm.
      destruct (checkout kind m); [|done]. intros [= <-]. simpl.
      split; [done |].
      rewrite list_lookup_insert_eq by (by eapply lookup_lt_Some). eauto. }
    simpl in Hb. destruct (source m) as [[| | |]|]; try done; by eapply Hk. }
  destruct Hback as [Hmb Hcur].
  destruct (parse_registers cur pb p2 Hp Hcur) as (Hreg & Hms).
  split; [done |]. intros x Hx. rewrite <- Hmb. by apply Hms.
Qed.


(** What a call of a backend does to the trace and to the flags. *)
Lemma backend_fetch_effect (kind : Source) (cur : ObjId) (p : Pool)
    (m : Module) :
  store p !! cur = Some m →
  ∃ b p1, backend_fetch checkout kind cur p = (Ok b, p1)
          ∧ events p1 = events p ++ [BackendFetch kind cur (path m)]
          ∧ (∀ j, is_fetched p j = true → is_fetched p1 j = true)
          ∧ (b = true → is_fetched p1 cur = true).
Proof.
  intros Hm. unfold backend_fetch. rewrite Hm.
  destruct (checkout kind m) as [entries|]; simpl.
  - eexists _, _. split; [done |]. split; [done |].
    unfold is_fetched. simpl. split.
    + intros j. destruct (decide (j = cur)) as [->|Hne].
      * rewrite list_lookup_insert_eq by (by eapply lookup_lt_Some).
        done.
      * by rewrite list_lookup_insert_ne.
    + by rewrite list_lookup_insert_eq by (by eapply lookup_lt_Some).
  - eexists _, _. by repeat split.
Qed.

(** What a call of [_fetch_module] does to the trace and to the flags. *)
Lemma fetch_module_effect (cur : ObjId) (p : Pool) :
  let '(r, p1) := fetch_module cur p in
  (r = Raise AssertionError ∧ p1 = p)
  ∨ (∃ kind d,
       events p1 = events p ++ [BackendFetch kind cur d]
       ∧ (∀ j, is_fetched p j = true → is_fetched p1 j = true)
       ∧ match r with
         | Ok _ => is_fetched p1 cur = true
         | Raise _ => True
         end).
Proof.
  unfold _fetch_module.
  unfold mbind at 1, M_bind at 1, get_pool at 1.
  unfold mbind at 1, M_bind at 1.
  destruct (store p !! cur) as [m|] eqn:Hm; simpl; [|by left].
  assert (Hk : ∀ kind,
    let '(r, p1) :=
      let (r, p') := backend_fetch checkout kind cur p in
      match r with
      | Ok a =>
          (if negb a then raise (unable_to_fetch (url m))
           else parse cur ≫= λ _ : (),
                  get_pool ≫= λ p0 : Pool, mret (submodules_of p0 cur)) p'
      | Raise e => (Raise e, p')
      end in
    (r = Raise AssertionError ∧ p1 = p)
    ∨ (∃ kind d,
         events p1 = events p ++ [BackendFetch kind cur d]
         ∧ (∀ j, is_fetched p j = true → is_fetched p1 j = true)
         ∧ match r with
           | Ok _ => is_fetched p1 cur = true
           | Raise _ => True
           end)).
  { intros kind.
    destruct (backend_fetch_effect kind cur p m Hm)
      as (b & p1 & -> & He & Hf & Hb).
    destruct b; simpl.
    - pose proof (keeps_parse cur p1) as [Hpe Hpf].
      unfold mbind, M_bind.
      destruct (parse cur p1) as [[u|e] p2]; simpl in *; right;
        exists kind, (path m); (split; [by rewrite Hpe, He |]);
        (split; [by auto |]); auto.
    - right. exists kind, (path m). by repeat split. }
  destruct (source m) as [[| | |]|]; simpl; try (by left); apply Hk.
Qed.


Lemma fetch_inv_post (p0 p : Pool) (calls : list Event) :
  fetch_inv p0 p calls → fetch_post p0 p.
Proof.
  intros (He & Hnd & Hids & _). exists calls. split; [done |].
  split; [done |]. intros id Hid. by apply Hids.
Qed.

Lemma fetch_inv_same (p0 p p' : Pool) (calls : list Event) :
  events p' = events p → store p' = store p →
  fetch_inv p0 p calls → fetch_inv p0 p' calls.
Proof.
  intros He Hs (Hev & Hnd & Hids & Hmono).
  assert (Hf : ∀ x, is_fetched p' x = is_fetched p x)
    by (intros x; by apply is_fetched_store).
  split; [by rewrite He |]. split; [done |]. split.
  - intros id Hid. rewrite Hf. by apply Hids.
  - intros j Hj. rewrite Hf. by apply Hmono.
Qed.

Lemma fetch_loop_post (p0 : Pool) (fuel : nat) :
  ∀ q p calls, fetch_inv p0 p calls → fetch_post p0 (loop fuel q p).2.
Proof.
  induction fuel as [|fuel IH]; intros q p calls Hinv.
  - simpl. destruct (pop q) as [[cur q']|]; by eapply fetch_inv_post.
  - destruct (pop q) as [[cur q']|] eqn:Hpop.
    2: { simpl. rewrite Hpop. by eapply fetch_inv_post. }
    apply pop_Some in Hpop as ->. rewrite fetch_loop_step.
    destruct (is_fetched p cur) eqn:Hcur.
    + simpl. rewrite foldl_visit. apply (IH _ _ calls).
      destruct (add_all_fields
                  (filter (λ c, is_fetched p c = false)
                          (submodules_of p cur)) p) as (Hs & _ & He).
      by apply (fetch_inv_same p0 p).
    + pose proof (fetch_module_effect cur p) as Heff.
      destruct (fetch_module cur p) as [r p1].
      destruct Heff as [[-> ->]|(kind & d & He & Hf & Hr)].
      { by eapply fetch_inv_post. }
      destruct Hinv as (Hev & Hnd & Hids & Hmono).
      assert (Hnew : cur ∉ fetched_modules calls).
      { intros Hin. apply Hids in Hin as [Hin _]. congruence. }
      assert (H0 : is_fetched p0 cur = false).
      { destruct (is_fetched p0 cur) eqn:H0; [|done].
        apply Hmono in H0. congruence. }
      set (calls1 := calls ++ [BackendFetch kind cur d]).
      assert (Hev1 : events p1 = events p0 ++ calls1).
      { unfold calls1. by rewrite He, Hev, <- app_assoc. }
      assert (Hfm : fetched_modules calls1 = fetched_modules calls ++ [cur]).
      { unfold calls1, fetched_modules. by rewrite omap_app. }
      assert (Hnd1 : NoDup (fetched_modules calls1)).
      { rewrite Hfm. apply NoDup_app. split; [done |]. split.
        - intros x Hx Hx'. apply list_elem_of_singleton in Hx' as ->. done.
        - apply NoDup_singleton. }
      destruct r as [new|e].
      * rewrite foldl_visit. apply (IH _ _ calls1).
        destruct (add_all_fields
                    (filter (λ c, is_fetched p1 c = false) new) p1)
          as (Hs & _ & He2).
        apply (fetch_inv_same p0 p1); [done | done |].
        split; [done |]. split; [done |]. split.
        -- intros id. rewrite Hfm.
           intros [Hid|Hid]%elem_of_app.
           ++ destruct (Hids id Hid) as [H1 H2]. split; [by apply Hf | done].
           ++ by apply list_elem_of_singleton in Hid as ->.
        -- intros j Hj. by apply Hf, Hmono.
      * simpl. exists calls1. split; [done |]. split; [done |].
        intros id. rewrite Hfm.
        intros [Hid|Hid]%elem_of_app.
        -- by apply Hids.
        -- by apply list_elem_of_singleton in Hid as ->.
Qed.

Lemma loop_out_of_fuel (q : list ObjId) (p : Pool) :
  events (loop 0 q p).2 = events p.
Proof. simpl. by destruct (pop q) as [[cur q']|]. Qed.

(** Every backend call of a run is made by the iteration that follows a
    state of the run in which the module is not fetched. *)
Lemma loop_calls_at_pop (fuel : nat) :
  ∀ q p c1 kind id d c2,
    events (loop fuel q p).2
    = events p ++ c1 ++ BackendFetch kind id d :: c2 →
    ∃ k pk, (k < fuel)%nat
            ∧ loop k q p = (None, pk)
            ∧ events pk = events p ++ c1
            ∧ is_fetched pk id = false
            ∧ events (loop (S k) q p).2
              = events p ++ c1 ++ [BackendFetch kind id d].
Proof.
  assert (Hlen : ∀ (evs c1 c2 : list Event) e,
            evs = evs ++ c1 ++ e :: c2 → False).
  { intros evs c1 c2 e H. apply (f_equal List.length) in H.
    rewrite !length_app in H. simpl in H. lia. }
  induction fuel as [|fuel IH]; intros q p c1 kind id d c2 Hev.
  - rewrite loop_out_of_fuel in Hev. by apply Hlen in Hev.
  - destruct (pop q) as [[cur q']|] eqn:Hpop.
    2: { simpl in Hev. rewrite Hpop in Hev. by apply Hlen in Hev. }
    apply pop_Some in Hpop as ->. rewrite fetch_loop_step in Hev.
    destruct (is_fetched p cur) eqn:Hcur.
    + simpl in Hev. rewrite foldl_visit in Hev.
      set (un := filter (λ c, is_fetched p c = false) (submodules_of p cur))
        in *.
      assert (He2 : events (add_all p un) = events p)
        by apply add_all_fields.
      rewrite <- He2 in Hev.
      destruct (IH _ _ _ _ _ _ _ Hev) as (k & pk & Hk & Hrun & Hpk & Hf & Hn).
      subst un. exists (S k), pk. split; [lia |]. split.
      { rewrite fetch_loop_step, Hcur. cbv beta iota delta [mret M_ret].
        by rewrite foldl_visit. }
      split; [by rewrite Hpk, He2 |]. split; [done |].
      rewrite fetch_loop_step, Hcur. cbv beta iota delta [mret M_ret].
      by rewrite foldl_visit, Hn, He2.
    + pose proof (fetch_module_effect cur p) as Heff.
      destruct (fetch_module cur p) as [r p1] eqn:Hfm.
      destruct Heff as [[-> ->]|(kind' & d' & He & Hmono & Hr)].
      { simpl in Hev. by apply Hlen in Hev. }
      assert (Hzero : loop 0 (q' ++ [cur]) p = (None, p)).
      { simpl. by rewrite pop_snoc. }
      destruct r as [new|e].
      * rewrite foldl_visit in Hev.
        set (un := filter (λ c, is_fetched p1 c = false) new) in *.
        assert (He2 : events (add_all p1 un) = events p1)
          by apply add_all_fields.
        destruct (extends_loop fuel (q' ++ un) (add_all p1 un))
          as ((rest & Hrest & _) & _).
        assert (Hsplit : BackendFetch kind' cur d' :: rest
                         = c1 ++ BackendFetch kind id d :: c2).
        { rewrite Hrest, He2, He, <- app_assoc in Hev.
          by apply app_inv_head in Hev. }
        destruct c1 as [|e1 c1'].
        -- injection Hsplit as -> -> -> _. subst un.
           exists 0, p. split; [lia |]. split; [done |].
           split; [by rewrite app_nil_r |]. split; [done |].
           rewrite fetch_loop_step, Hcur, Hfm, foldl_visit.
           by rewrite loop_out_of_fuel, He2, He.
        -- injection Hsplit as <- Hrest'.
           assert (Hev' : events (loop fuel (q' ++ un) (add_all p1 un)).2
                          = events (add_all p1 un)
                            ++ c1' ++ BackendFetch kind id d :: c2)
             by (by rewrite Hrest, Hrest').
           destruct (IH _ _ _ _ _ _ _ Hev')
             as (k & pk & Hk & Hrun & Hpk & Hf & Hn).
           subst un. exists (S k), pk. split; [lia |]. split.
           { by rewrite fetch_loop_step, Hcur, Hfm, foldl_visit. }
           split; [by rewrite Hpk, He2, He, <- app_assoc |].
           split; [done |].
           rewrite fetch_loop_step, Hcur, Hfm, foldl_visit, Hn, He2, He.
           by rewrite <- !app_assoc.
      * simpl in Hev. rewrite He in Hev. apply app_inv_head in Hev.
        destruct c1 as [|e1 [|e2 c1']]; [|done..].
        injection Hev as -> -> -> _.
        exists 0, p. split; [lia |]. split; [done |].
        split; [by rewrite app_nil_r |]. split; [done |].
        rewrite fetch_loop_step, Hcur, Hfm. simpl. by rewrite He.
Qed.

(** Claim C1, as amended. A run of [_fetch_all] only adds calls of the
    backends to the trace, at most one per module object, and none on a
    module object whose [isfetched] flag was set when the run started.
    Each call is made when the module is popped with its flag not set:
    the call on [id] is what the iteration number [k + 1] adds to the
    trace, and in the pool [pk] that the first [k] iterations leave the
    flag of [id] is false; this holds for the module objects built during
    the run as well. *)
Theorem fetch_once_per_module (fuel : nat) (p : Pool) :
  ∃ calls,
    events (fetch_all fuel p).2 = events p ++ calls
    ∧ Forall (λ e, is_backend_call e = true) calls
    ∧ NoDup (fetched_modules calls)
    ∧ (∀ id, id ∈ fetched_modules calls → is_fetched p id = false)
    ∧ ∀ c1 kind id d c2,
        calls = c1 ++ BackendFetch kind id d :: c2 →
        ∃ k pk, (k < fuel)%nat
                ∧ fetch_all k p = (None, pk)
                ∧ events pk = events p ++ c1
                ∧ is_fetched pk id = false
                ∧ events (fetch_all (S k) p).2
                  = events p ++ c1 ++ [BackendFetch kind id d].
Proof.
  destruct (extends_loop fuel (manifests p) p) as ((calls & Hev & Hall) & _).
  exists calls. split; [exact Hev |]. split; [exact Hall |].
  destruct (fetch_loop_post p fuel (manifests p) p [])
    as (calls' & Hev' & Hnd & Hun).
  { split; [by rewrite app_nil_r |]. split; [apply NoDup_nil_2 |].
    split; [by intros id ?%elem_of_nil | done]. }
  assert (calls' = calls) as ->.
  { unfold _fetch_all in Hev. rewrite Hev in Hev'.
    by apply app_inv_head in Hev'. }
  split; [done |]. split; [done |].
  intros c1 kind id d c2 ->.
  by apply (loop_calls_at_pop fuel (manifests p) p c1 kind id d c2).
Qed.


(** *** Hooks *)

Local Abbreviation hooks os :=
  (run_hooks os).
Local Abbreviation fetch_action os :=
  (fetch str_lower svn_parse url_parse svn_basename url_basename
     relpath abspath join str_parent manifest_at checkout os).

Lemma run_hook_effect (os : string → FS → Z * FS) (key : string)
    (p : Pool) (id : ObjId) :
  let p' := run_hook os key p id in
  store p' = store p ∧ manifests p' = manifests p
  ∧ events p'
    = events p
      ++ (OsSystem <$> option_list (m ← store p !! id; hook_command key m)).
Proof.
  unfold run_hook, hook_command.
  destruct (store p !! id) as [m|]; simpl; [|by rewrite app_nil_r].
  destruct (manifest_dict m) as [d|]; simpl.
  2: { destruct (isfetched m); by rewrite app_nil_r. }
  destruct (isfetched m); simpl; [|by rewrite app_nil_r].
  destruct (d !! key) as [cmd|]; simpl; [|by rewrite app_nil_r].
  by destruct (os cmd (fs p)).
Qed.

Lemma foldl_run_hook (os : string → FS → Z * FS) (key : string)
    (l : list ObjId) (p : Pool) :
  let p' := foldl (run_hook os key) p l in
  store p' = store p ∧ manifests p' = manifests p
  ∧ events p'
    = events p
      ++ (OsSystem <$> omap (λ id, m ← store p !! id; hook_command key m) l).
Proof.
  revert p. induction l as [|id l IH]; intros p; simpl.
  - by rewrite app_nil_r.
  - destruct (run_hook_effect os key p id) as (Hs & Hm & He).
    destruct (IH (run_hook os key p id)) as (Hs' & Hm' & He').
    rewrite Hs', Hm', He', Hs, Hm, He. repeat split; try done.
    rewrite <- app_assoc. f_equal.
    destruct (store p !! id ≫= hook_command key); done.
Qed.

Lemma run_hooks_effect (os : string → FS → Z * FS) (key : string)
    (p : Pool) :
  let p' := hooks os key p in
  store p' = store p ∧ manifests p' = manifests p
  ∧ events p' = events p ++ (OsSystem <$> hook_commands key p).
Proof. apply foldl_run_hook. Qed.

Lemma run_hooks_status (os1 os2 : string → FS → Z * FS) (key : string)
    (p : Pool) :
  (∀ cmd f, (os1 cmd f).2 = (os2 cmd f).2) →
  hooks os1 key p = hooks os2 key p.
Proof.
  intros Hos. unfold run_hooks. generalize (manifests p). intros l.
  revert p. induction l as [|id l IH]; intros p; simpl; [done |].
  rewrite <- IH. f_equal. unfold run_hook.
  destruct (store p !! id) as [m|]; [|done].
  destruct (manifest_dict m) as [d|]; [|done].
  destruct (isfetched m); [|done].
  destruct (d !! key) as [cmd|]; [|done].
  specialize (Hos cmd (fs p)).
  destruct (os1 cmd (fs p)), (os2 cmd (fs p)). simpl in Hos. by subst.
Qed.

(** Claim C7. [fetch] runs, before and after [_fetch_all], one shell
    command per module of the module set that is fetched and whose parsed
    manifest has the directive, in the order of the module set, each
    once; what [fetch] returns and the pool it leaves do not depend on
    the exit status the shell reports. *)
Theorem fetch_hooks_fire_and_forget (os1 os2 : string → FS → Z * FS)
    (fuel : nat) (p : Pool) :
  (∀ cmd f, (os1 cmd f).2 = (os2 cmd f).2) →
  let pre := hooks os1 "fetch_pre_cmd" p in
  fetch_action os1 fuel p = fetch_action os2 fuel p
  ∧ events pre = events p ++ (OsSystem <$> hook_commands "fetch_pre_cmd" p)
  ∧ match fetch_all fuel pre with
    | (Some (Ok _), p2) =>
        ∃ p3, fetch_action os1 fuel p = (Some (Ok ()), p3)
              ∧ events p3
                = events p2
                  ++ (OsSystem <$> hook_commands "fetch_post_cmd" p2)
    | other => fetch_action os1 fuel p = other
    end.
Proof.
  intros Hos pre. split; [|split].
  - unfold fetch. rewrite (run_hooks_status os1 os2 _ p Hos).
    destruct (fetch_all fuel _) as [[[u|e]|] p2]; try done.
    by rewrite (run_hooks_status os1 os2 _ p2 Hos).
  - apply run_hooks_effect.
  - unfold fetch. fold pre.
    destruct (fetch_all fuel pre) as [[[u|e]|] p2]; try done.
    eexists. split; [done |]. apply run_hooks_effect.
Qed.

(** *** Clean *)

Lemma remove_dir_effect (p : Pool) (id : ObjId) :
  let p1 := remove_dir_from_disk p id in
  store p1 = store p ∧ manifests p1 = manifests p
  ∧ events p1 = events p ++ [RemoveDir id]
  ∧ (∀ d k, path_of p id = Some d → within d k = true → fs p1 !! k = None)
  ∧ (∀ k, (∀ d, path_of p id = Some d → within d k = false) →
          fs p1 !! k = fs p !! k)
  ∧ (∀ k, fs p !! k = None → fs p1 !! k = None).
Proof.
  unfold remove_dir_from_disk.
  change (path_of (log_event (RemoveDir id) p) id) with (path_of p id).
  destruct (path_of p id) as [d0|]; simpl; repeat split; try done.
  - intros d k [= ->] Hk. apply map_lookup_filter_None_2. right.
    intros x _. simpl. by rewrite Hk.
  - intros k Hk. specialize (Hk d0 eq_refl).
    destruct (fs p !! k) as [x|] eqn:Hx.
    + by apply map_lookup_filter_Some_2.
    + apply map_lookup_filter_None_2. by left.
  - intros k Hk. apply map_lookup_filter_None_2. by left.
Qed.

Lemma has_url_and_path_store (p p' : Pool) (id : ObjId) :
  store p' = store p → has_url_and_path p' id = has_url_and_path p id.
Proof. unfold has_url_and_path. by intros ->. Qed.

Lemma clean_line_Ok (p : Pool) (id : ObjId) :
  from_option clean_line (Raise concat_none) (store p !! id)
  = if has_url_and_path p id then
      from_option clean_line (Raise concat_none) (store p !! id)
    else Raise concat_none.
Proof.
  unfold has_url_and_path, clean_line.
  destruct (store p !! id) as [m|]; simpl; [|done].
  destruct (url m), (path m); simpl; try done;
    rewrite bool_decide_eq_false_2; try done;
    by intros [[? ?] [? ?]].
Qed.

(** The loop of [clean] removes the modules of the list in order, up to
    the first one without url or path, where it raises. *)
Lemma clean_loop_effect (l : list ObjId) :
  ∀ p, ∃ removed rest,
    l = removed ++ rest
    ∧ Forall (λ id, has_url_and_path p id = true) removed
    ∧ match rest with
      | [] => (clean_loop l p).1 = Ok ()
      | id :: _ =>
          has_url_and_path p id = false
          ∧ (clean_loop l p).1 = Raise concat_none
      end
    ∧ store (clean_loop l p).2 = store p
    ∧ manifests (clean_loop l p).2 = manifests p
    ∧ events (clean_loop l p).2 = events p ++ (RemoveDir <$> removed)
    ∧ (∀ id d k, id ∈ removed → path_of p id = Some d →
                 within d k = true → fs (clean_loop l p).2 !! k = None)
    ∧ (∀ k, (∀ id d, id ∈ removed → path_of p id = Some d →
                     within d k = false) →
            fs (clean_loop l p).2 !! k = fs p !! k)
    ∧ (∀ k, fs p !! k = None → fs (clean_loop l p).2 !! k = None).
Proof.
  induction l as [|a l IH]; intros p.
  - exists [], []. simpl. rewrite app_nil_r. repeat split; try done.
    by intros id d k ?%elem_of_nil.
  - simpl. rewrite clean_line_Ok.
    destruct (has_url_and_path p a) eqn:Ha.
    2: { exists [], (a :: l). simpl. rewrite app_nil_r.
         repeat split; try done. by intros id d k ?%elem_of_nil. }
    assert (Hok : ∃ line,
              from_option clean_line (Raise concat_none) (store p !! a)
              = Ok line).
    { unfold has_url_and_path in Ha. unfold clean_line.
      destruct (store p !! a) as [m|]; simpl in *; [|done].
      apply bool_decide_eq_true in Ha as [[u ->] [d ->]]. eauto. }
    destruct Hok as [line ->].
    destruct (remove_dir_effect p a) as (Hs & Hm & He & Hgone & Hfr & Hno).
    set (p1 := remove_dir_from_disk p a) in *.
    destruct (IH p1)
      as (removed & rest & -> & Hall & Hrest & Hs' & Hm' & He' & Hgone'
          & Hfr' & Hno').
    assert (Hpath : ∀ x, path_of p1 x = path_of p x)
      by (intros x; by apply path_of_store).
    exists (a :: removed), rest.
    split; [done |]. split.
    { constructor; [done |]. eapply Forall_impl; [exact Hall |].
      intros x. simpl. by rewrite (has_url_and_path_store p p1). }
    split.
    { destruct rest as [|b rest]; [done |].
      by rewrite <- (has_url_and_path_store p p1). }
    split; [congruence |]. split; [congruence |]. split.
    { rewrite He', He. simpl. by rewrite <- app_assoc. }
    split; [|split].
    + intros id d k [->|Hid]%elem_of_cons Hd Hk.
      * apply Hno'. by apply (Hgone d).
      * apply (Hgone' id d); [done | by rewrite Hpath | done].
    + intros k Hk. rewrite Hfr'.
      * apply Hfr. intros d Hd. apply (Hk a d); [by left | done].
      * intros id d Hid Hd. rewrite Hpath in Hd.
        apply (Hk id d); [by right | done].
    + intros k Hk. by apply Hno', Hno.
Qed.

(** Claim C6. The modules [clean] is to remove are exactly the modules of
    the module set that are fetched and of source git, gitsm or svn, taken
    in the reverse of the order of the module set: of two such modules the
    one discovered later comes first. [clean] calls
    [remove_dir_from_disk] on them in that order and on no other module;
    when each of them has a url and a path, as [init_config] leaves them,
    it removes them all and returns, else it raises at the first one that
    has none, after the removals before it. It changes no module object;
    the resolved path of every removed module and every path below it are
    gone from the disk, and every other path is left as it was. *)
Theorem clean_reverse_discovery_order (p : Pool) :
  let to_be_removed :=
    reverse (filter (λ id, to_remove p id = true) (manifests p)) in
  (∀ id, id ∈ to_be_removed
         ↔ id ∈ manifests p
           ∧ ∃ m, store p !! id = Some m ∧ isfetched m = true
                  ∧ (source m = Some git ∨ source m = Some gitsm
                     ∨ source m = Some svn))
  ∧ (∀ l1 a l2 b l3,
       manifests p = l1 ++ a :: l2 ++ b :: l3 →
       a ∈ to_be_removed → b ∈ to_be_removed →
       ∃ r1 r2 r3, to_be_removed = r1 ++ b :: r2 ++ a :: r3)
  ∧ ∃ removed rest,
      to_be_removed = removed ++ rest
      ∧ Forall (λ id, has_url_and_path p id = true) removed
      ∧ match rest with
        | [] => (clean p).1 = Ok ()
        | id :: _ =>
            has_url_and_path p id = false
            ∧ (clean p).1 = Raise concat_none
        end
      ∧ (Forall (λ id, has_url_and_path p id = true) to_be_removed →
         removed = to_be_removed ∧ (clean p).1 = Ok ())
      ∧ events (clean p).2 = events p ++ (RemoveDir <$> removed)
      ∧ store (clean p).2 = store p
      ∧ manifests (clean p).2 = manifests p
      ∧ (∀ id d k, id ∈ removed → path_of p id = Some d →
                   within d k = true → fs (clean p).2 !! k = None)
      ∧ (∀ k, (∀ id d, id ∈ removed → path_of p id = Some d →
                       within d k = false) →
              fs (clean p).2 !! k = fs p !! k).
Proof.
  intros to_be_removed.
  assert (Hclean : clean p = clean_loop to_be_removed p).
  { unfold clean. fold to_be_removed. by destruct to_be_removed. }
  assert (Hin : ∀ id, id ∈ to_be_removed
                      ↔ id ∈ manifests p ∧ to_remove p id = true).
  { intros id. unfold to_be_removed.
    rewrite elem_of_reverse, list_elem_of_filter. tauto. }
  split; [|split].
  - intros id. rewrite Hin. unfold to_remove, version_controlled.
    split.
    + intros [Hid H]. split; [done |].
      destruct (store p !! id) as [m|]; [|done].
      apply andb_true_iff in H as [Hv Hf]. exists m.
      split; [done |]. split; [done |].
      apply bool_decide_eq_true in Hv. rewrite !elem_of_cons in Hv.
      destruct Hv as [?|[?|[?|[]%elem_of_nil]]]; auto.
    + intros (Hid & m & Hm' & Hf & Hsrc). split; [done |].
      rewrite Hm', Hf, andb_true_r. apply bool_decide_eq_true.
      rewrite !elem_of_cons. tauto.
  - intros l1 a l2 b l3 Hms Ha Hb.
    apply Hin in Ha as [_ Ha]. apply Hin in Hb as [_ Hb].
    unfold to_be_removed. rewrite Hms.
    rewrite filter_app, filter_cons_True by done.
    rewrite filter_app, filter_cons_True by done.
    repeat (rewrite reverse_app || rewrite reverse_cons).
    exists (reverse (filter (λ id, to_remove p id = true) l3)),
           (reverse (filter (λ id, to_remove p id = true) l2)),
           (reverse (filter (λ id, to_remove p id = true) l1)).
    by rewrite <- !app_assoc.
  - rewrite Hclean.
    destruct (clean_loop_effect to_be_removed p)
      as (removed & rest & Hl & Hall & Hrest & Hs & Hm & He & Hgone & Hfr
          & _).
    exists removed, rest. repeat (split; [done |]). split; [|done].
    intros Hgood. destruct rest as [|b rest].
    + by rewrite app_nil_r in Hl.
    + destruct Hrest as [Hb _]. rewrite Hl in Hgood.
      apply Forall_app in Hgood as [_ Hgood].
      apply Forall_cons in Hgood as [Hb' _]. congruence.
Qed.

End action_facts.
Import pool_examples.

Local Abbreviation ex_parse :=
  (parse_manifest lower ex_svn_parse ex_url_parse ex_basename ex_basename
     ex_same ex_same ex_join ex_str_parent ex_manifest_at).
Local Abbreviation ex_fetch_module :=
  (_fetch_module lower ex_svn_parse ex_url_parse ex_basename ex_basename
     ex_same ex_same ex_join ex_str_parent ex_manifest_at ex_checkout).
Local Abbreviation ex_loop :=
  (fetch_loop lower ex_svn_parse ex_url_parse ex_basename ex_basename
     ex_same ex_same ex_join ex_str_parent ex_manifest_at ex_checkout).
Local Abbreviation ex_fetch_all :=
  (_fetch_all lower ex_svn_parse ex_url_parse ex_basename ex_basename
     ex_same ex_same ex_join ex_str_parent ex_manifest_at ex_checkout).
Local Abbreviation ex_fetch :=
  (fetch lower ex_svn_parse ex_url_parse ex_basename ex_basename
     ex_same ex_same ex_join ex_str_parent ex_manifest_at ex_checkout).

(** [diamond_pool] is what parsing the manifests of the modules on disk
    builds: [init_config] finds [ip/d] absent twice, and the second module
    object of that path is not recorded in the module set. *)
Example diamond_pool_built :
  (ex_parse 2 (ex_parse 1 (ex_parse 0 top_only).2).2).2 = diamond_pool.
Proof. vm_compute. reflexivity. Qed.

(** Claim C1 fails on the diamond: the run ends normally after two backend
    calls for the one resolved path [ip/d]. *)
Lemma diamond_fetched_twice :
  (ex_fetch_all 10 diamond_pool).1 = Some (Ok ())
  ∧ events (ex_fetch_all 10 diamond_pool).2
    = [BackendFetch git 3 (Some "ip/d"); BackendFetch git 4 (Some "ip/d")]
  ∧ ¬ NoDup (fetched_paths (events (ex_fetch_all 10 diamond_pool).2)).
Proof.
  assert (He : events (ex_fetch_all 10 diamond_pool).2
               = [BackendFetch git 3 (Some "ip/d");
                  BackendFetch git 4 (Some "ip/d")])
    by (vm_compute; reflexivity).
  split; [vm_compute; reflexivity |]. split; [exact He |].
  rewrite He. simpl. intros [Hnin _]%NoDup_cons. apply Hnin. by left.
Qed.

(** The second call of the run on the diamond: the first two iterations
    leave the module object 4 unfetched, the third one fetches it. *)
Example diamond_second_call :
  (ex_fetch_all 2 diamond_pool).1 = None
  ∧ events (ex_fetch_all 2 diamond_pool).2 = [BackendFetch git 3 (Some "ip/d")]
  ∧ is_fetched (ex_fetch_all 2 diamond_pool).2 4 = false
  ∧ events (ex_fetch_all 3 diamond_pool).2
    = [BackendFetch git 3 (Some "ip/d"); BackendFetch git 4 (Some "ip/d")].
Proof. repeat split; vm_compute; reflexivity. Qed.

(** The local module [sub] declared by [m] is module object 2; it is
    fetched when it is built, it is in the module set after the run, and
    it never was in the queue. *)
Example fetched_child_registered :
  (ex_fetch_all 10 local_child_pool).1 = Some (Ok ())
  ∧ submodules_of (ex_fetch_all 10 local_child_pool).2 1 = [2]
  ∧ is_fetched (ex_fetch_all 10 local_child_pool).2 2 = true
  ∧ manifests (ex_fetch_all 10 local_child_pool).2 = [0; 1; 2]
  ∧ events (ex_fetch_all 10 local_child_pool).2
    = [BackendFetch git 1 (Some "ip/m")].
Proof. repeat split; vm_compute; reflexivity. Qed.


Lemma fetch_failure_aborts_witness :
  (store broken_pool !! 1
   = Some (a_module git (Some 0) "git://host/broken" "ip/broken" false None
             [])
   ∧ git ≠ local)
  ∧ ex_loop 10 ([0] ++ [1]) broken_pool
    = (Some (Raise (Exception ["Unable to fetch module %s";
                               "git://host/broken"])),
       log_event (BackendFetch git 1 (Some "ip/broken")) broken_pool).
Proof.
  split; [by split |].
  apply (fetch_failure_aborts lower ex_svn_parse ex_url_parse ex_basename
           ex_basename ex_same ex_same ex_join ex_str_parent ex_manifest_at
           ex_checkout 9 [0] 1 broken_pool
           (a_module git (Some 0) "git://host/broken" "ip/broken" false None
              [])
           git);
    done.
Defined.

Lemma fetch_hooks_witness :
  (∀ cmd f, (ex_shell_ok cmd f).2 = (ex_shell_failing cmd f).2)
  ∧ ex_fetch ex_shell_ok 10 hook_pool = ex_fetch ex_shell_failing 10 hook_pool
  ∧ events (run_hooks ex_shell_ok "fetch_pre_cmd" hook_pool)
    = [OsSystem "make prepare"].
Proof.
  assert (H : ∀ cmd f, (ex_shell_ok cmd f).2 = (ex_shell_failing cmd f).2)
    by done.
  split; [exact H |].
  destruct (fetch_hooks_fire_and_forget lower ex_svn_parse ex_url_parse
              ex_basename ex_basename ex_same ex_same ex_join ex_str_parent
              ex_manifest_at ex_checkout ex_shell_ok ex_shell_failing 10
              hook_pool H) as (Hsame & Hpre & _).
  split; [exact Hsame |]. rewrite Hpre. reflexivity.
Defined.

Example hooks_of_a_run :
  events (ex_fetch ex_shell_ok 10 hook_pool).2
  = [OsSystem "make prepare"; OsSystem "make ready"].
Proof. vm_compute. reflexivity. Qed.

(** The chain root, a, b: [b] is removed before [a]; the local root is not
    removed, and its directory stays. *)
Lemma clean_chain_witness :
  (manifests chain_pool = [0] ++ 1 :: [] ++ 2 :: []
   ∧ Forall (λ id, has_url_and_path chain_pool id = true) [2; 1])
  ∧ (clean chain_pool).1 = Ok ()
  ∧ events (clean chain_pool).2 = [RemoveDir 2; RemoveDir 1]
  ∧ fs (clean chain_pool).2 !! "ip/a" = None
  ∧ fs (clean chain_pool).2 !! "ip/b" = None
  ∧ fs (clean chain_pool).2 !! "top" = Some (Directory ["Manifest.py"])
  ∧ ∃ r1 r2 r3,
      reverse (filter (λ id, to_remove chain_pool id = true)
                      (manifests chain_pool))
      = r1 ++ 2 :: r2 ++ 1 :: r3.
Proof.
  assert (Hgood : Forall (λ id, has_url_and_path chain_pool id = true)
                    [2; 1]) by (by repeat constructor).
  split; [by split |].
  destruct (clean_reverse_discovery_order chain_pool)
    as (Hin & Horder & removed & rest & _ & _ & _ & Hall & Hev & _ & _
        & Hgone & Hfr).
  destruct (Hall Hgood) as [-> Hok].
  split; [exact Hok |]. split; [rewrite Hev; reflexivity |].
  split; [by apply (Hgone 1 "ip/a" "ip/a"); [by repeat constructor | |] |].
  split; [by apply (Hgone 2 "ip/b" "ip/b"); [by repeat constructor | |] |].
  split.
  { rewrite Hfr; [reflexivity |]. intros id d Hid Hd.
    apply elem_of_cons in Hid as [->|Hid];
      [by injection Hd as <- |].
    apply elem_of_cons in Hid as [->|Hid];
      [by injection Hd as <- | by apply elem_of_nil in Hid]. }
  apply (Horder [0] 1 [] 2 []); [reflexivity | |];
    apply Hin; (split; [by repeat constructor |]); eexists;
    (split; [reflexivity |]);
    (split; [reflexivity |]); auto.
Defined.

(** A directory below the checkout of a removed module goes with it. *)
Example clean_removes_the_tree :
  fs (clean (mkPool
               [a_module local None "top" "top" true (Some ∅) [(git, [1])];
                a_module git (Some 0) "git://host/m" "ip/m" true (Some ∅) []]
               [0; 1]
               {[ "top" := Directory ["Manifest.py"];
                  "ip/m" := Directory ["Manifest.py"; "sub"];
                  "ip/m/sub" := Directory ["Manifest.py"];
                  "ip/m2" := Directory ["Manifest.py"] ]}
               [])).2
  = {[ "top" := Directory ["Manifest.py"];
       "ip/m2" := Directory ["Manifest.py"] ]}.
Proof. vm_compute. reflexivity. Qed.

(** A fetched git module without url: the log line cannot be built, and
    the module discovered before it is not removed. *)
Example clean_without_url :
  (let '(r, p) :=
     clean (mkPool
              [a_module git None "git://host/a" "ip/a" true (Some ∅) [];
               mkModule (Some git) None None None None (Some "ip/b") true
                 None "work" None None []]
              [0; 1]
              {[ "ip/a" := Directory ["Manifest.py"];
                 "ip/b" := Directory ["Manifest.py"] ]}
              []) in
   (r, events p, dom (fs p)))
  = (Raise concat_none, [], {[ "ip/a"; "ip/b" ]}).
Proof. vm_compute. reflexivity. Qed.

End commands_props.

(** ** Further properties of [srcfile.py] *)

Module srcfile_extra.
Import srcfile srcfile_more srcfile_props.

Lemma rsplit_lacks (sep : ascii) (s : string) :
  lacks sep s = true → rsplit sep s = [s].
Proof.
  induction s as [|c s IH]; simpl; [done |].
  intros [Hc Hs]%andb_true_iff. apply negb_true_iff in Hc.
  by rewrite Hc, (IH Hs).
Qed.

Lemma rsplit_pieces (sep : ascii) (s : string) :
  rsplit sep s ≠ [] ∧ Forall (λ x, lacks sep x = true) (rsplit sep s).
Proof.
  induction s as [|c s [IH1 IH2]]; simpl.
  - split; [done |]. by repeat constructor.
  - destruct (Ascii.eqb c sep) eqn:Hc.
    + split; [done |]. by constructor.
    + destruct (rsplit sep s) as [|x l]; [done |]. split; [done |].
      apply Forall_cons in IH2 as [Hx Hl]. constructor; [|done].
      simpl. by rewrite Hc, Hx.
Qed.

Lemma rsplit_app (sep : ascii) (b e : string) :
  rsplit sep (b +:+ String sep e) = rsplit sep b ++ rsplit sep e.
Proof.
  induction b as [|c b IH].
  - rewrite app_nil. simpl. by rewrite Ascii.eqb_refl.
  - rewrite app_cons. simpl. rewrite IH. destruct (Ascii.eqb c sep); [done |].
    destruct (rsplit_pieces sep b) as [Hne _].
    by destruct (rsplit sep b) as [|x l] eqn:Hr.
Qed.

Lemma rsplit_last_suffix (sep : ascii) (b e : string) :
  last (rsplit sep (b +:+ String sep e)) = last (rsplit sep e).
Proof.
  rewrite rsplit_app, last_app.
  destruct (rsplit_pieces sep e) as [Hne _].
  destruct (rsplit sep e) as [|x l] eqn:Hr using rev_ind; [done |].
  by rewrite last_snoc.
Qed.

Lemma extension_of_last (p : string) :
  extension_of p = default EmptyString (last (rsplit "."%char p)).
Proof.
  unfold extension_of. rewrite last_lookup.
  by replace (List.length (rsplit "." p) - 1)
    with (pred (List.length (rsplit "." p))) by lia.
Qed.

(** Property X1. The extension is what follows the last dot, and it never
    holds a dot. *)
Theorem extension_of_suffix (base e p : string) :
  lacks "."%char e = true →
  extension_of (base +:+ "." +:+ e) = e
  ∧ lacks "."%char (extension_of p) = true.
Proof.
  intros He. split.
  - rewrite extension_of_last.
    change (base +:+ "." +:+ e) with (base +:+ String "."%char e).
    by rewrite rsplit_last_suffix, (rsplit_lacks _ _ He).
  - rewrite extension_of_last.
    destruct (rsplit_pieces "."%char p) as [Hne Hall].
    destruct (last (rsplit "." p)) as [x|] eqn:Hl; [|done].
    apply last_Some_elem_of in Hl.
    by rewrite Forall_forall in Hall; apply Hall.
Qed.

Section more_facts.

Variable isabs : string → bool.
Variable abspath : string → string.
Variable dirname : string → string.
Variable relpath : string → string.
Variable pathsplit : string → list string.
Variable mmap_bytes : string → option string.

Local Abbreviation create :=
  (create_source_file isabs abspath dirname relpath pathsplit mmap_bytes).
Local Abbreviation build := (construct dirname relpath pathsplit mmap_bytes).

(** Property X2. The arguments [library], [include_dirs] and [is_include] only
    reach the VHDL, Verilog and SystemVerilog constructors. *)
Theorem create_source_file_drops_library
    (p : string) (m : ModRef) (lib : option string)
    (incl : option (list string)) (is_incl : bool) :
  extension_of (absolute isabs abspath p) ∉ HDL_EXTENSIONS →
  create (Some p) m lib incl is_incl = create (Some p) m None None false.
Proof.
  intros Hext. unfold create_source_file.
  case_bool_decide; [done |].
  set (ext := extension_of (absolute isabs abspath p)) in *.
  unfold HDL_EXTENSIONS in Hext. rewrite !not_elem_of_cons in Hext.
  destruct Hext as (? & ? & ? & ? & ? & ? & ? & ? & ? & _).
  rewrite (bool_decide_eq_false_2 (ext ∈ ["vhd"; "vhdl"; "vho"]))
    by (rewrite !elem_of_cons, elem_of_nil; tauto).
  rewrite (bool_decide_eq_false_2 (ext ∈ ["v"; "vh"; "vo"; "vm"]))
    by (rewrite !elem_of_cons, elem_of_nil; tauto).
  rewrite (bool_decide_eq_false_2 (ext = "sv")) by done.
  by rewrite (bool_decide_eq_false_2 (ext = "svh")) by done.
Qed.

Lemma foldl_add_relation (g : string → DepRelation) (l : list string)
    (f : File) :
  foldl (λ f e, add_relation (g e) f) f l
  = mkFile (file_class f) (path f) (module f) (library f) (is_include f)
      (include_dirs f) (parser f) (rels f ++ (g <$> l)) (is_parsed f).
Proof.
  revert f. induction l as [|e l IH]; intros f; simpl.
  - rewrite app_nil_r. by destruct f.
  - rewrite IH. simpl. by rewrite <- app_assoc.
Qed.

Lemma construct_as_constructed (c : FileClass) (p : string) (m : ModRef)
    (f : File) :
  build c p m = Ok f →
  as_constructed (relpath (dirname p)) f
  ∧ file_class f = c ∧ path f = p ∧ module f = m.
Proof.
  unfold as_constructed.
  destruct c; simpl; try (intros [= <-]; simpl; by repeat split).
  - unfold IPFile_init, last_component.
    destruct (last (pathsplit p)) as [fn|]; simpl; [|done].
    intros [= <-]. simpl. repeat split; eauto.
  - unfold QSYSFile_init, last_component.
    destruct (last (pathsplit p)) as [fn|]; simpl; [|done].
    destruct (mmap_bytes p) as [[|a xml]|]; [done | | done].
    intros [= <-].
    rewrite (foldl_add_relation
               (λ E, mkDepRelation (dotted E E) USE ENTITY)).
    simpl. repeat split; eauto.
    eexists _, _. split; [reflexivity |].
    apply Forall_fmap, Forall_true. by intros E.
Qed.

(** Property X3. Whatever [create_source_file] returns is a file of the
    absolute path and of the given module, set up as the constructor of its
    class does. *)
Theorem create_source_file_as_constructed
    (p : string) (m : ModRef) (lib : option string)
    (incl : option (list string)) (is_incl : bool) (f : File) :
  create (Some p) m lib incl is_incl = Ok f →
  as_constructed (relpath (dirname (absolute isabs abspath p))) f
  ∧ path f = absolute isabs abspath p
  ∧ module f = m.
Proof.
  unfold create_source_file. case_bool_decide; [done |].
  set (p' := absolute isabs abspath p).
  set (ext := extension_of p').
  assert (Hlast : ∀ (l : list string) (x : string), last (l ++ [x]) = Some x)
    by (intros; apply last_snoc).
  assert (Hlib : ∀ c, is_Some (library (SourceFile_init c p' m lib))).
  { intros c. unfold SourceFile_init. simpl. eauto. }
  repeat case_match; try done;
    try (intros [= <-]; unfold as_constructed; simpl;
         repeat split; eauto);
    try (intros Hb; apply construct_as_constructed in Hb; tauto).
Qed.

(** Property X4. A Qsys description is opened when the file object is created:
    a file that cannot be opened or is empty makes [create_source_file]
    raise. *)
Theorem create_source_file_reads_qsys
    (p fn : string) (m : ModRef) (lib : option string)
    (incl : option (list string)) (is_incl : bool) :
  p ≠ EmptyString →
  extension_of (absolute isabs abspath p) = "qsys" →
  last (pathsplit (absolute isabs abspath p)) = Some fn →
  match mmap_bytes (absolute isabs abspath p) with
  | None =>
      create (Some p) m lib incl is_incl
      = Raise (IOError (absolute isabs abspath p))
  | Some EmptyString =>
      create (Some p) m lib incl is_incl
      = Raise (ValueError "cannot mmap an empty file")
  | Some (String _ _) =>
      ∃ f, create (Some p) m lib incl is_incl = Ok f
           ∧ file_class f = QSYSFile
  end.
Proof.
  intros Hp Hext Hfn. unfold create_source_file.
  rewrite bool_decide_eq_false_2 by done. rewrite Hext.
  change (bool_decide ("qsys" ∈ ["vhd"; "vhdl"; "vho"])) with false.
  change (bool_decide ("qsys" ∈ ["v"; "vh"; "vo"; "vm"])) with false.
  change (bool_decide ("qsys" = "sv") || bool_decide ("qsys" = "svh"))
    with false.
  change (bool_decide ("qsys" = "wb")) with false.
  change (bool_decide ("qsys" = "tcl")) with false.
  change (bool_decide ("qsys" = "sdc")) with false.
  change (XILINX_FILE_DICT !! "qsys") with (@None FileClass).
  change (ALTERA_FILE_DICT !! "qsys") with (Some QSYSFile).
  cbv iota beta. unfold construct, QSYSFile_init, last_component.
  rewrite Hfn. simpl.
  destruct (mmap_bytes (absolute isabs abspath p)) as [[|a xml]|];
    [done | | done].
  eexists. split; [reflexivity |].
  by rewrite (foldl_add_relation
                (λ E, mkDepRelation (dotted E E) USE ENTITY)).
Qed.

End more_facts.

Lemma occurrences_bound (s : string) (es : list string) :
  Occurrences s es →
  Forall (λ E, E ≠ EmptyString ∧ word_string E = true) es
  ∧ (sum_list_with (λ E, String.length E + 33) es ≤ String.length s)%nat.
Proof.
  induction 1 as [|E rest es HE Hw _ [IH1 IH2]|c s es _ _ [IH1 IH2]].
  - split; [constructor | done].
  - split; [by constructor |]. simpl.
    rewrite !string_length_app. simpl. lia.
  - split; [done |]. simpl. lia.
Qed.

(** Property X5. Every name the scan returns is a non-empty run of word
    characters, and the names with their tags fit in the text: there are at
    most [length s / 34] of them. *)
Theorem finditer_bounded (s : string) :
  Forall (λ E, E ≠ EmptyString ∧ word_string E = true) (finditer s)
  ∧ (sum_list_with (λ E, String.length E + 33) (finditer s)
     ≤ String.length s)%nat
  ∧ (34 * List.length (finditer s) ≤ String.length s)%nat.
Proof.
  destruct (occurrences_bound s (finditer s) (finditer_occurrences s))
    as [Hall Hsum].
  split; [done |]. split; [done |].
  etrans; [|exact Hsum]. clear Hsum.
  induction Hall as [|E es [HE _] _ IH]; simpl; [done |].
  destruct E; [done |]. simpl. lia.
Qed.

Import srcfile_examples.

Lemma extension_of_suffix_witness :
  lacks "."%char "vhd" = true
  ∧ extension_of ("rtl/top.tb" +:+ "." +:+ "vhd") = "vhd"
  ∧ lacks "."%char (extension_of "rtl.d/Makefile") = true.
Proof.
  split; [reflexivity |].
  apply (extension_of_suffix "rtl/top.tb" "vhd" "rtl.d/Makefile").
  reflexivity.
Defined.

Lemma create_source_file_drops_library_witness :
  (extension_of (absolute ex_isabs ex_abspath "pins.ucf") ∉ HDL_EXTENSIONS)
  ∧ create_source_file ex_isabs ex_abspath ex_dirname ex_relpath
      ex_pathsplit ex_mmap_bytes (Some "pins.ucf") 0 (Some "cores")
      (Some ["inc"]) true
    = create_source_file ex_isabs ex_abspath ex_dirname ex_relpath
        ex_pathsplit ex_mmap_bytes (Some "pins.ucf") 0 None None false.
Proof.
  assert (H : extension_of (absolute ex_isabs ex_abspath "pins.ucf")
              ∉ HDL_EXTENSIONS).
  { apply (bool_decide_unpack _). vm_compute. exact I. }
  split; [exact H |].
  apply (create_source_file_drops_library ex_isabs ex_abspath ex_dirname
           ex_relpath ex_pathsplit ex_mmap_bytes "pins.ucf" 0 (Some "cores")
           (Some ["inc"]) true H).
Defined.

Lemma create_source_file_as_constructed_witness :
  ∃ f, create_source_file ex_isabs ex_abspath ex_dirname ex_relpath
         ex_pathsplit ex_mmap_bytes (Some "rtl/uart.v") 0 (Some "cores")
         (Some ["inc"]) false = Ok f
       ∧ as_constructed
           (ex_relpath (ex_dirname (absolute ex_isabs ex_abspath "rtl/uart.v")))
           f
       ∧ path f = absolute ex_isabs ex_abspath "rtl/uart.v"
       ∧ module f = 0.
Proof.
  eexists. split; [vm_compute; reflexivity |].
  apply (create_source_file_as_constructed ex_isabs ex_abspath ex_dirname
           ex_relpath ex_pathsplit ex_mmap_bytes "rtl/uart.v" 0 (Some "cores")
           (Some ["inc"]) false).
  vm_compute. reflexivity.
Defined.

Lemma create_source_file_reads_qsys_witness :
  "soc.qsys" ≠ EmptyString
  ∧ extension_of (absolute ex_isabs ex_abspath "soc.qsys") = "qsys"
  ∧ last (ex_pathsplit (absolute ex_isabs ex_abspath "soc.qsys"))
    = Some "soc.qsys"
  ∧ match ex_mmap_bytes (absolute ex_isabs ex_abspath "soc.qsys") with
    | None =>
        create_source_file ex_isabs ex_abspath ex_dirname ex_relpath
          ex_pathsplit ex_mmap_bytes (Some "soc.qsys") 0 None None false
        = Raise (IOError (absolute ex_isabs ex_abspath "soc.qsys"))
    | Some EmptyString =>
        create_source_file ex_isabs ex_abspath ex_dirname ex_relpath
          ex_pathsplit ex_mmap_bytes (Some "soc.qsys") 0 None None false
        = Raise (ValueError "cannot mmap an empty file")
    | Some (String _ _) =>
        ∃ f, create_source_file ex_isabs ex_abspath ex_dirname ex_relpath
               ex_pathsplit ex_mmap_bytes (Some "soc.qsys") 0 None None false
             = Ok f
             ∧ file_class f = QSYSFile
    end.
Proof.
  assert (H1 : "soc.qsys" ≠ EmptyString) by discriminate.
  assert (H2 : extension_of (absolute ex_isabs ex_abspath "soc.qsys")
               = "qsys") by reflexivity.
  assert (H3 : last (ex_pathsplit (absolute ex_isabs ex_abspath "soc.qsys"))
               = Some "soc.qsys") by reflexivity.
  split; [exact H1 |]. split; [exact H2 |]. split; [exact H3 |].
  apply (create_source_file_reads_qsys ex_isabs ex_abspath ex_dirname
           ex_relpath ex_pathsplit ex_mmap_bytes "soc.qsys" "soc.qsys" 0
           None None false H1 H2 H3).
Defined.

End srcfile_extra.

(** ** Further properties of [module/core.py] *)

Module core_extra.
Import core core_more core_props.

Section more_config.

Variable str_lower : string → string.
Variable svn_parse : string → string * option string.
Variable url_parse :
  string → string * option string * option string * option string.
Variable svn_basename : string → string.
Variable url_basename : string → string.
Variable relpath : string → string.
Variable abspath : string → string.
Variable join : string → string → string.
Variable str_parent : option ObjId → string.
Variable is_abs_path : string → bool.
Variable rel2abs : string → option string → string.
Variable path_exists : string → bool.

Local Abbreviation init_run :=
  (init_config svn_parse url_parse svn_basename url_basename relpath
     abspath join str_parent).
Local Abbreviation resolved :=
  (resolved_path svn_parse url_parse svn_basename url_basename relpath
     abspath join).
Local Abbreviation make_list :=
  (_make_list_of_paths join is_abs_path rel2abs path_exists).
Local Abbreviation make_loop :=
  (make_list_loop join is_abs_path rel2abs path_exists).

(** Property X6. For a module that is not local, on disks where the
    resolved path is not a file that is no directory, the outcome of
    [init_config] does not depend on the disk: the call returns when the
    module has a parent and raises on [self.parent.path] when it has none.
    What is on disk decides [isfetched] and nothing else: the resolved
    path, like every other attribute, is the same on any such disk. *)
Theorem init_config_resolves_path (fs fs' : FS) (self : Module)
    (args : ModuleArgs) :
  arg_source args ≠ local →
  fs !! resolved self (arg_source args) (arg_url args) (arg_fetchto args)
  ≠ Some RegularFile →
  fs' !! resolved self (arg_source args) (arg_url args) (arg_fetchto args)
  ≠ Some RegularFile →
  ∃ m m',
    init_run fs self args = (parent_path_logged (arg_parent args), m)
    ∧ init_run fs' self args = (parent_path_logged (arg_parent args), m')
    ∧ set_isfetched false m' = set_isfetched false m
    ∧ path m
      = Some (resolved self (arg_source args) (arg_url args)
                (arg_fetchto args))
    ∧ source m = Some (arg_source args)
    ∧ parent m = arg_parent args.
Proof.
  intros Hsrc Hfs Hfs'.
  destruct (init_config_remote svn_parse url_parse svn_basename
              url_basename relpath abspath join str_parent self args Hsrc)
    as (m0 & Hs & Hpar & _ & _ & _ & H).
  rewrite !H.
  destruct (fs !! _) as [[l|]|]; [|done|];
    destruct (fs' !! _) as [[l'|]|]; try done;
    eexists _, _; (split; [reflexivity |]); (split; [reflexivity |]);
    by repeat split.
Qed.

(** Property X7. Processing the manifest a second time changes nothing, and
    the first time it changes the library and the action only; the action
    is the value of the manifest passed through [str.lower]. *)
Theorem process_manifest_universal_idempotent
    (parent_obj : option Module) (self self' : Module) :
  _process_manifest_universal str_lower parent_obj self = Ok self' →
  _process_manifest_universal str_lower parent_obj self' = Ok self'
  ∧ self' = set_action (action self') (set_library (library self') self)
  ∧ action self'
    = match manifest_dict self ≫= (.!! "action") with
      | Some a => Some (str_lower a)
      | None => action self
      end.
Proof.
  unfold _process_manifest_universal.
  destruct self as [src par u b r pa f lo l a [d|] ms]; simpl.
  2: { destruct lo; simpl; [done |]. done. }
  destruct lo as [lo|]; simpl.
  - destruct (d !! "action") as [act|] eqn:Ha; simpl; intros [= <-]; simpl;
      rewrite ?Ha; simpl; by repeat split.
  - destruct (d !! "library") as [lib|] eqn:Hl; simpl.
    + destruct (d !! "action") as [act|] eqn:Ha; simpl; intros [= <-];
        simpl; rewrite ?Hl; simpl; rewrite ?Ha; simpl; by repeat split.
    + destruct parent_obj as [po|]; simpl;
        destruct (d !! "action") as [act|] eqn:Ha; simpl; intros [= <-];
        simpl; rewrite ?Hl; simpl; rewrite ?Ha; simpl; by repeat split.
Qed.

(** Property X8. A manifest that has not been parsed is the one reason for
    [_process_manifest_universal] to fail, library override or not. *)
Theorem process_manifest_universal_needs_manifest
    (parent_obj : option Module) (self : Module) :
  match _process_manifest_universal str_lower parent_obj self with
  | Ok _ => is_Some (manifest_dict self)
  | Raise e => e = not_iterable ∧ manifest_dict self = None
  end.
Proof.
  unfold _process_manifest_universal.
  destruct self as [src par u b r pa f lo l a [d|] ms]; simpl.
  - destruct lo; simpl; [destruct (d !! "action"); simpl; eauto |].
    destruct (d !! "library"); simpl.
    + destruct (d !! "action"); simpl; eauto.
    + destruct parent_obj; simpl; destruct (d !! "action"); simpl; eauto.
  - destruct lo; simpl; eauto.
Qed.

Lemma make_list_loop_closed (dir : string) (self : Module)
    (l acc : list string) :
  path self = Some dir →
  make_loop self acc l
  = match List.find (missing_entry join is_abs_path path_exists dir) l with
    | Some f => Raise (path_missing dir (join dir f))
    | None =>
        Ok (acc ++ ((λ f, rel2abs f (Some dir))
                      <$> filter (λ f, kept_entry is_abs_path f = true) l))
    end.
Proof.
  intros Hdir. revert acc. induction l as [|f l IH]; intros acc; simpl.
  - by rewrite app_nil_r.
  - unfold _check_filepath, missing_entry, kept_entry. rewrite ?Hdir.
    rewrite filter_cons.
    destruct (decide (f = "")) as [->|Hf].
    + rewrite bool_decide_eq_false_2 by (by intros ?). simpl.
      rewrite IH, ?Hdir. unfold missing_entry, kept_entry.
      destruct (List.find _ l); [done |].
      by rewrite <- app_assoc.
    + rewrite (bool_decide_eq_true_2 (f ≠ "")) by done.
      rewrite (bool_decide_eq_false_2 (f = "")) by done. simpl.
      destruct (is_abs_path f) eqn:Habs; simpl.
      * rewrite IH. unfold missing_entry, kept_entry.
        by destruct (List.find _ l).
      * destruct (path_exists (join dir f)) eqn:Hex; simpl; [|done].
        rewrite IH, ?Hdir. unfold missing_entry, kept_entry.
        destruct (List.find _ l); [done |].
        by rewrite <- app_assoc.
Qed.

(** Property X9. [_make_list_of_paths] raises for the first entry that is
    neither empty nor absolute and does not exist below the module; otherwise
    it returns the entries that are empty or not absolute, made absolute, in
    order: absolute entries are left out without an error. *)
Theorem make_list_of_paths_result (dir : string) (self : Module)
    (l : list string) :
  path self = Some dir →
  make_list self l
  = match List.find (missing_entry join is_abs_path path_exists dir) l with
    | Some f => Raise (path_missing dir (join dir f))
    | None =>
        Ok ((λ f, rel2abs f (Some dir))
              <$> filter (λ f, kept_entry is_abs_path f = true) l)
    end.
Proof.
  intros Hdir. unfold _make_list_of_paths.
  by rewrite (make_list_loop_closed dir).
Qed.

End more_config.

Import pool_examples more_examples srcfile_examples.

Lemma init_config_resolves_path_witness :
  (arg_source d_of_b ≠ local
   ∧ (∅ : FS) !! "ip/d" ≠ Some RegularFile
   ∧ <["ip/d" := Directory ["Manifest.py"]]> diamond_fs !! "ip/d"
     ≠ Some RegularFile)
  ∧ ∃ m m',
      init_config ex_svn_parse ex_url_parse ex_basename ex_basename ex_same
        ex_same ex_join ex_str_parent ∅ new_module d_of_b
      = (parent_path_logged (arg_parent d_of_b), m)
      ∧ init_config ex_svn_parse ex_url_parse ex_basename ex_basename
          ex_same ex_same ex_join ex_str_parent
          (<["ip/d" := Directory ["Manifest.py"]]> diamond_fs) new_module
          d_of_b
        = (parent_path_logged (arg_parent d_of_b), m')
      ∧ set_isfetched false m' = set_isfetched false m
      ∧ path m
        = Some (resolved_path ex_svn_parse ex_url_parse ex_basename
                  ex_basename ex_same ex_same ex_join new_module
                  (arg_source d_of_b) (arg_url d_of_b) (arg_fetchto d_of_b))
      ∧ source m = Some (arg_source d_of_b)
      ∧ parent m = arg_parent d_of_b.
Proof.
  assert (H : arg_source d_of_b ≠ local) by discriminate.
  assert (H1 : (∅ : FS) !! "ip/d" ≠ Some RegularFile) by discriminate.
  assert (H2 : <["ip/d" := Directory ["Manifest.py"]]> diamond_fs !! "ip/d"
               ≠ Some RegularFile) by discriminate.
  split; [by repeat split |].
  apply (init_config_resolves_path ex_svn_parse ex_url_parse ex_basename
           ex_basename ex_same ex_same ex_join ex_str_parent ∅
           (<["ip/d" := Directory ["Manifest.py"]]> diamond_fs)
           new_module d_of_b H H1 H2).
Defined.

Lemma process_manifest_universal_idempotent_witness :
  ∃ self',
    _process_manifest_universal lower (Some top_module) synthesis_module
    = Ok self'
    ∧ _process_manifest_universal lower (Some top_module) self' = Ok self'
    ∧ self' = set_action (action self')
                (set_library (library self') synthesis_module)
    ∧ action self'
      = match manifest_dict synthesis_module ≫= (.!! "action") with
        | Some a => Some (lower a)
        | None => action synthesis_module
        end.
Proof.
  eexists. split; [vm_compute; reflexivity |].
  apply (process_manifest_universal_idempotent lower (Some top_module)
           synthesis_module).
  vm_compute. reflexivity.
Defined.

Lemma make_list_of_paths_result_witness :
  path top_module = Some "top"
  ∧ _make_list_of_paths ex_join ex_isabs ex_rel2abs ex_path_exists top_module
      ["rtl/a.vhd"; "/opt/lib/b.v"; ""; "rtl/c.v"]
    = match List.find (missing_entry ex_join ex_isabs ex_path_exists "top")
              ["rtl/a.vhd"; "/opt/lib/b.v"; ""; "rtl/c.v"] with
      | Some f => Raise (path_missing "top" (ex_join "top" f))
      | None =>
          Ok ((λ f, ex_rel2abs f (Some "top"))
                <$> filter (λ f, kept_entry ex_isabs f = true)
                      ["rtl/a.vhd"; "/opt/lib/b.v"; ""; "rtl/c.v"])
      end.
Proof.
  split; [reflexivity |].
  apply (make_list_of_paths_result ex_join ex_isabs ex_rel2abs ex_path_exists
           "top" top_module ["rtl/a.vhd"; "/opt/lib/b.v"; ""; "rtl/c.v"]).
  reflexivity.
Defined.

End core_extra.

(** ** Further properties of [action/commands.py] *)

Module commands_extra.
Import core commands commands_more commands_props.

Section more_action_facts.

Variable str_lower : string → string.
Variable svn_parse : string → string * option string.
Variable url_parse :
  string → string * option string * option string * option string.
Variable svn_basename : string → string.
Variable url_basename : string → string.
Variable relpath : string → string.
Variable abspath : string → string.
Variable join : string → string → string.
Variable str_parent : option ObjId → string.
Variable manifest_at : option string → Manifest.
Variable checkout : Source → Module → option (list string).
Variable str_module : option Module → string.

Local Abbreviation init :=
  (configured svn_parse url_parse svn_basename url_basename relpath
     abspath join str_parent).
Local Abbreviation parse :=
  (parse_manifest str_lower svn_parse url_parse svn_basename url_basename
     relpath abspath join str_parent manifest_at).
Local Abbreviation fetch_module :=
  (_fetch_module str_lower svn_parse url_parse svn_basename url_basename
     relpath abspath join str_parent manifest_at checkout).
Local Abbreviation loop :=
  (fetch_loop str_lower svn_parse url_parse svn_basename url_basename
     relpath abspath join str_parent manifest_at checkout).
Local Abbreviation fetch_all :=
  (_fetch_all str_lower svn_parse url_parse svn_basename url_basename
     relpath abspath join str_parent manifest_at checkout).

(** Property X10. Whatever the outcome of a run of [_fetch_all], it only adds
    backend calls to the trace and modules at the end of the module set; it
    removes no directory, and every module object that existed keeps its
    source, parent, url, branch, revision and resolved path, and its flag
    [isfetched] if that was set. *)
Theorem fetch_all_extends (fuel : nat) (p : Pool) :
  extends p (fetch_all fuel p).2.
Proof. apply extends_loop. Qed.

Lemma add_all_pending (p : Pool) (l q : list ObjId) (cur : ObjId) :
  is_fetched p cur = true →
  (∀ id, id ∈ manifests p → is_fetched p id = true ∨ id ∈ q ++ [cur]) →
  ∀ id, id ∈ manifests (add_all p l) →
        is_fetched (add_all p l) id = true ∨ id ∈ q ++ l.
Proof.
  intros Hcur Hinv id Hid.
  rewrite (is_fetched_store p) by apply add_all_fields.
  apply add_all_only in Hid as [Hid|Hid].
  - destruct (Hinv id Hid) as [Hf|Hq]; [by left |].
    apply elem_of_app in Hq as [Hq|Hq].
    + right. apply elem_of_app. by left.
    + apply list_elem_of_singleton in Hq as ->. by left.
  - right. apply elem_of_app. by right.
Qed.

Lemma loop_all_fetched (fuel : nat) :
  ∀ q p p',
    (∀ id, id ∈ manifests p → is_fetched p id = true ∨ id ∈ q) →
    loop fuel q p = (Some (Ok ()), p') →
    ∀ id, id ∈ manifests p' → is_fetched p' id = true.
Proof.
  induction fuel as [|fuel IH]; intros q p p' Hinv.
  - simpl. destruct (pop q) as [[cur q']|] eqn:Hpop; [done |].
    intros [= <-] id Hid. apply pop_None in Hpop as ->.
    destruct (Hinv id Hid) as [?|?%elem_of_nil]; done.
  - destruct (pop q) as [[cur q']|] eqn:Hpop.
    2: { simpl. rewrite Hpop. intros [= <-] id Hid.
         apply pop_None in Hpop as ->.
         destruct (Hinv id Hid) as [?|?%elem_of_nil]; done. }
    apply pop_Some in Hpop as ->. rewrite fetch_loop_step.
    destruct (is_fetched p cur) eqn:Hcur.
    + simpl. rewrite foldl_visit. apply IH.
      by apply (add_all_pending _ _ _ cur).
    + pose proof (fetch_module_effect str_lower svn_parse url_parse svn_basename
                    url_basename relpath abspath join str_parent
                    manifest_at checkout cur p) as Heff.
      destruct (fetch_module cur p) as [[new|e] p1] eqn:Hfm; simpl in *;
        [|done].
      destruct (fetch_module_registers _ _ _ _ _ _ _ _ _ _ _ _ _ _ _ Hfm)
        as [_ Hms].
      destruct Heff as [[? _]|(kind & d & _ & Hf & Hc1)]; [done |].
      rewrite foldl_visit. apply IH. intros id Hid.
      rewrite (is_fetched_store p1) by apply add_all_fields.
      apply add_all_only in Hid as [Hid|Hid].
      * destruct (Hms id Hid) as [Hold|Hnew].
        -- destruct (Hinv id Hold) as [Hfd|Hq]; [left; by apply Hf |].
           apply elem_of_app in Hq as [Hq|Hq].
           ++ right. apply elem_of_app. by left.
           ++ apply list_elem_of_singleton in Hq as ->. by left.
        -- destruct (is_fetched p1 id) eqn:Hfid; [by left |]. right.
           apply elem_of_app. right. by apply list_elem_of_filter.
      * right. apply elem_of_app. by right.
Qed.

Lemma check_all_fetched_iff (p : Pool) :
  _check_all_fetched str_module p = Ok ()
  ↔ ∀ id, id ∈ manifests p → is_fetched p id = true.
Proof.
  unfold _check_all_fetched.
  destruct (filter (λ m, is_fetched p m = false) (manifests p))
    as [|x l] eqn:Hfil; simpl.
  - split; [|done]. intros _ id Hid.
    destruct (is_fetched p id) eqn:Hf; [done |].
    assert (Hin : id ∈ filter (λ m, is_fetched p m = false) (manifests p))
      by (by apply list_elem_of_filter).
    rewrite Hfil in Hin. by apply elem_of_nil in Hin.
  - split; [done |]. intros Hall.
    assert (Hin : x ∈ filter (λ m, is_fetched p m = false) (manifests p))
      by (rewrite Hfil; by left).
    apply list_elem_of_filter in Hin as [Hf Hin].
    by rewrite (Hall x Hin) in Hf.
Qed.

(** Property X11. A run of [_fetch_all] that ends normally leaves every module
    of the module set fetched, so that [_check_all_fetched] passes. *)
Theorem fetch_all_then_check (fuel : nat) (p p' : Pool) :
  fetch_all fuel p = (Some (Ok ()), p') →
  (∀ id, id ∈ manifests p' → is_fetched p' id = true)
  ∧ _check_all_fetched str_module p' = Ok ().
Proof.
  intros Hrun.
  assert (Hall : ∀ id, id ∈ manifests p' → is_fetched p' id = true).
  { eapply loop_all_fetched; [|exact Hrun]. intros id Hid. by right. }
  split; [done |]. by apply check_all_fetched_iff.
Qed.

Lemma loop_nothing_to_do (q : list ObjId) (p : Pool) (fuel : nat) :
  (∀ id, id ∈ q →
         is_fetched p id = true
         ∧ ∀ c, c ∈ submodules_of p id → is_fetched p c = true) →
  (List.length q ≤ fuel)%nat →
  loop fuel q p = (Some (Ok ()), p).
Proof.
  revert fuel. induction q as [|cur q IH] using rev_ind; intros fuel Hq Hlen.
  - by destruct fuel.
  - rewrite length_app in Hlen. simpl in Hlen.
    destruct fuel as [|fuel]; [lia |].
    rewrite fetch_loop_step.
    destruct (Hq cur) as [Hcur Hsub]; [apply elem_of_app; right; by left |].
    rewrite Hcur. simpl. rewrite foldl_visit.
    assert (Hnil : filter (λ c, is_fetched p c = false) (submodules_of p cur)
                   = []).
    { destruct (filter _ (submodules_of p cur)) as [|x l] eqn:Hfil; [done |].
      assert (Hin : x ∈ filter (λ c, is_fetched p c = false)
                               (submodules_of p cur))
        by (rewrite Hfil; by left).
      apply list_elem_of_filter in Hin as [Hf Hin].
      by rewrite (Hsub x Hin) in Hf. }
    rewrite Hnil, app_nil_r. simpl. apply IH; [|lia].
    intros id Hid. apply Hq, elem_of_app. by left.
Qed.

(** Property X12. Fetching again when nothing is missing does nothing: if the
    modules of the module set and the sub-modules they declare are all
    fetched, [_fetch_all] ends normally after one iteration per module of the
    set, without a backend call and with the pool as it was. *)
Theorem fetch_all_nothing_to_do (fuel : nat) (p : Pool) :
  (∀ id, id ∈ manifests p →
         is_fetched p id = true
         ∧ ∀ c, c ∈ submodules_of p id → is_fetched p c = true) →
  (List.length (manifests p) ≤ fuel)%nat →
  fetch_all fuel p = (Some (Ok ()), p).
Proof. intros Hall Hlen. by apply loop_nothing_to_do. Qed.

(** Property X13. [fetch] on a design that is all on disk runs the two series
    of hooks and nothing else: no backend is called, no module object
    changes. *)
Theorem fetch_runs_hooks_only (os : string → FS → Z * FS) (fuel : nat)
    (p : Pool) :
  (∀ id, id ∈ manifests p →
         is_fetched p id = true
         ∧ ∀ c, c ∈ submodules_of p id → is_fetched p c = true) →
  (List.length (manifests p) ≤ fuel)%nat →
  ∃ p', fetch str_lower svn_parse url_parse svn_basename url_basename relpath
          abspath join str_parent manifest_at checkout os fuel p
        = (Some (Ok ()), p')
        ∧ store p' = store p ∧ manifests p' = manifests p
        ∧ events p'
          = events p ++ (OsSystem <$> hook_commands "fetch_pre_cmd" p)
            ++ (OsSystem <$> hook_commands "fetch_post_cmd" p).
Proof.
  intros Hall Hlen. unfold fetch.
  destruct (run_hooks_effect os "fetch_pre_cmd" p) as (Hs & Hm & He).
  set (pre := run_hooks os "fetch_pre_cmd" p) in *.
  unfold _fetch_all.
  rewrite (loop_nothing_to_do (manifests pre) pre fuel).
  - destruct (run_hooks_effect os "fetch_post_cmd" pre) as (Hs' & Hm' & He').
    eexists. split; [reflexivity |].
    rewrite Hs', Hm', He', Hs, Hm, He. repeat split.
    rewrite <- app_assoc. do 2 f_equal.
    unfold hook_commands. by rewrite Hs, Hm.
  - intros id Hid. rewrite Hm in Hid.
    unfold is_fetched, submodules_of in *. rewrite Hs. by apply Hall.
  - by rewrite Hm.
Qed.

(** Property X14. An unfetched module of source [local], or without a source,
    stops the run on the assertion of [_fetch_module]: no backend is called
    and the pool is as it was. *)
Theorem fetch_local_asserts (fuel : nat) (q : list ObjId) (cur : ObjId)
    (p : Pool) (m : Module) :
  store p !! cur = Some m →
  isfetched m = false →
  source m = Some local ∨ source m = None →
  loop (S fuel) (q ++ [cur]) p = (Some (Raise AssertionError), p).
Proof.
  intros Hm Hf Hsrc. rewrite fetch_loop_step.
  unfold is_fetched. rewrite Hm. simpl. rewrite Hf.
  unfold _fetch_module, mbind, M_bind, get_pool. simpl. rewrite Hm. simpl.
  by destruct Hsrc as [->| ->].
Qed.

(** Property X15. Once a module is fetched, with a checkout that is not
    empty, every module object configured afterwards for the same source,
    url and [fetchto], as the child of some module, is born fetched, at
    the same resolved path. *)
Theorem fetched_module_found_on_disk (kind : Source) (id : ObjId) (p : Pool)
    (fs0 : FS) (args args' : ModuleArgs) (m : Module)
    (e : string) (es : list string) :
  arg_source args ≠ local →
  arg_source args' = arg_source args →
  arg_url args' = arg_url args →
  arg_fetchto args' = arg_fetchto args →
  is_Some (arg_parent args') →
  init fs0 new_module args = Ok m →
  store p !! id = Some m →
  checkout kind m = Some (e :: es) →
  ∃ m', init (fs (backend_fetch checkout kind id p).2) new_module args'
        = Ok m'
        ∧ isfetched m' = true ∧ path m' = path m.
Proof.
  intros Hsrc Hs Hu Hft [par' Hpar'] Hinit Hm Hco.
  destruct (core_props.init_config_remote svn_parse url_parse svn_basename
              url_basename relpath abspath join str_parent new_module args
              Hsrc) as (m0 & _ & _ & _ & _ & _ & H0).
  assert (Hsrc' : arg_source args' ≠ local) by congruence.
  destruct (core_props.init_config_remote svn_parse url_parse svn_basename
              url_basename relpath abspath join str_parent new_module args'
              Hsrc') as (m1 & _ & _ & _ & _ & _ & H1).
  rewrite Hs, Hu, Hft in H1.
  set (d := core_more.resolved_path svn_parse url_parse svn_basename
              url_basename relpath abspath join new_module
              (arg_source args) (arg_url args) (arg_fetchto args)) in *.
  assert (Hpath : path m = Some d).
  { unfold configured in Hinit. rewrite H0 in Hinit.
    destruct (fs0 !! d) as [[l|]|]; [|done|];
      destruct (arg_parent args); simpl in Hinit; try done;
      by injection Hinit as <-. }
  assert (Hfs : fs (backend_fetch checkout kind id p).2 !! d
                = Some (Directory (e :: es))).
  { unfold backend_fetch. rewrite Hm, Hco, Hpath. simpl.
    apply lookup_insert_eq. }
  unfold configured. rewrite H1, Hfs, Hpar'. simpl.
  eexists. split; [reflexivity |]. split; [done |]. by rewrite Hpath.
Qed.

End more_action_facts.

(** *** [update] and [_write_qip] *)

(** Property X16. [update] calls the git backend on the fetched modules of
    source [git] of the module set, in order and on no other module; with the
    option [terse] it prints nothing. *)
Theorem update_calls (terse : bool) (p : Pool) :
  omap (λ o, match o with
             | BackendUpdate id => Some id
             | Print _ => None
             end) (update terse p)
  = filter (λ id, is_fetched p id = true
                  ∧ (store p !! id) ≫= source = Some git) (manifests p)
  ∧ Forall (λ o, match o with
                 | BackendUpdate _ => True
                 | Print _ => False
                 end) (update true p).
Proof.
  unfold update. split.
  - induction (manifests p) as [|id l IH]; [done |].
    rewrite filter_cons. cbn [mbind list_bind]. rewrite omap_app, IH.
    unfold update_module_output, _print_comment, is_fetched.
    destruct (store p !! id) as [m|] eqn:Hm; simpl.
    + destruct (isfetched m) eqn:Hf; simpl; [|by destruct terse].
      case_bool_decide as Hs; simpl.
      * by rewrite decide_True by done.
      * rewrite decide_False; [done |]. by intros [_ ?].
    + done.
  - induction (manifests p) as [|id l IH]; [constructor |].
    cbn [mbind list_bind]. apply Forall_app. split; [|done].
    unfold update_module_output, _print_comment.
    destruct (store p !! id) as [m|]; [|constructor].
    destruct (isfetched m); simpl; [|constructor].
    case_bool_decide; by repeat constructor.
Qed.

Section qip.

Variable os_relpath : string → string.

Lemma qip_lines_all (l : list srcfile.File) (tcl : list string) :
  Forall (λ f, is_Some (srcfile.library f)) l →
  qip_lines os_relpath tcl l
  = inl (tcl ++ ((λ f, qip_line (default "" (srcfile.library f)) (ftype f)
                         (os_relpath (srcfile.path f))) <$> l)).
Proof.
  intros Hall. revert tcl.
  induction Hall as [|f l [lib Hlib] _ IH]; intros tcl; simpl.
  - by rewrite app_nil_r.
  - rewrite Hlib, IH. simpl. by rewrite <- app_assoc.
Qed.

(** Property X17. [_write_qip] on files that all have a library writes one
    line per file, in the order of the list, each closed by a line feed, to
    the file named [filename], or to the one named after the top entity when
    no name or an empty one is given. *)
Theorem write_qip_result (top_entity : string) (l : list srcfile.File)
    (filename : option string) :
  Forall (λ f, is_Some (srcfile.library f)) l →
  _write_qip os_relpath top_entity l filename
  = Written (match filename with
             | Some n => if bool_decide (n = "") then top_entity else n
             | None => top_entity
             end)
            (str_join "
" ((λ f, qip_line (default "" (srcfile.library f)) (ftype f)
           (os_relpath (srcfile.path f))) <$> l) +:+ "
").
Proof.
  intros Hall. unfold _write_qip. by rewrite (qip_lines_all _ _ Hall).
Qed.

End qip.

Import pool_examples more_examples srcfile_examples.

Local Abbreviation ex_loop :=
  (fetch_loop lower ex_svn_parse ex_url_parse ex_basename ex_basename
     ex_same ex_same ex_join ex_str_parent ex_manifest_at ex_checkout).
Local Abbreviation ex_fetch_all :=
  (_fetch_all lower ex_svn_parse ex_url_parse ex_basename ex_basename
     ex_same ex_same ex_join ex_str_parent ex_manifest_at ex_checkout).
Local Abbreviation ex_init :=
  (configured ex_svn_parse ex_url_parse ex_basename ex_basename ex_same
     ex_same ex_join ex_str_parent).

Lemma fetch_all_then_check_witness :
  ex_fetch_all 5 local_child_pool
  = (Some (Ok ()), (ex_fetch_all 5 local_child_pool).2)
  ∧ (∀ id, id ∈ manifests (ex_fetch_all 5 local_child_pool).2 →
           is_fetched (ex_fetch_all 5 local_child_pool).2 id = true)
  ∧ _check_all_fetched ex_str_module (ex_fetch_all 5 local_child_pool).2
    = Ok ().
Proof.
  assert (H : ex_fetch_all 5 local_child_pool
              = (Some (Ok ()), (ex_fetch_all 5 local_child_pool).2))
    by (vm_compute; reflexivity).
  split; [exact H |].
  apply (fetch_all_then_check lower ex_svn_parse ex_url_parse ex_basename
           ex_basename ex_same ex_same ex_join ex_str_parent ex_manifest_at
           ex_checkout ex_str_module 5 local_child_pool _ H).
Defined.

Lemma chain_pool_all_fetched :
  ∀ id, id ∈ manifests chain_pool →
        is_fetched chain_pool id = true
        ∧ ∀ c, c ∈ submodules_of chain_pool id → is_fetched chain_pool c = true.
Proof.
  apply Forall_forall.
  repeat (apply Forall_cons; split;
          [split; [reflexivity |]; apply Forall_forall;
           repeat (apply Forall_cons; split; [reflexivity |]);
           apply Forall_nil_2 |]).
  apply Forall_nil_2.
Defined.

Lemma fetch_all_nothing_to_do_witness :
  (∀ id, id ∈ manifests chain_pool →
         is_fetched chain_pool id = true
         ∧ ∀ c, c ∈ submodules_of chain_pool id →
                is_fetched chain_pool c = true)
  ∧ (List.length (manifests chain_pool) ≤ 3)%nat
  ∧ ex_fetch_all 3 chain_pool = (Some (Ok ()), chain_pool).
Proof.
  assert (H : (List.length (manifests chain_pool) ≤ 3)%nat)
    by (simpl; lia).
  split; [exact chain_pool_all_fetched |]. split; [exact H |].
  apply (fetch_all_nothing_to_do lower ex_svn_parse ex_url_parse ex_basename
           ex_basename ex_same ex_same ex_join ex_str_parent ex_manifest_at
           ex_checkout 3 chain_pool chain_pool_all_fetched H).
Defined.

Lemma hook_pool_all_fetched :
  ∀ id, id ∈ manifests hook_pool →
        is_fetched hook_pool id = true
        ∧ ∀ c, c ∈ submodules_of hook_pool id → is_fetched hook_pool c = true.
Proof.
  apply Forall_forall.
  repeat (apply Forall_cons; split;
          [split; [reflexivity |]; apply Forall_forall;
           repeat (apply Forall_cons; split; [reflexivity |]);
           apply Forall_nil_2 |]).
  apply Forall_nil_2.
Defined.

Lemma fetch_runs_hooks_only_witness :
  ((∀ id, id ∈ manifests hook_pool →
          is_fetched hook_pool id = true
          ∧ ∀ c, c ∈ submodules_of hook_pool id →
                 is_fetched hook_pool c = true)
   ∧ (List.length (manifests hook_pool) ≤ 4)%nat)
  ∧ hook_commands "fetch_pre_cmd" hook_pool = ["make prepare"]
  ∧ hook_commands "fetch_post_cmd" hook_pool = ["make ready"]
  ∧ ∃ p', fetch lower ex_svn_parse ex_url_parse ex_basename ex_basename
            ex_same ex_same ex_join ex_str_parent ex_manifest_at ex_checkout
            ex_shell_failing 4 hook_pool
          = (Some (Ok ()), p')
          ∧ store p' = store hook_pool
          ∧ manifests p' = manifests hook_pool
          ∧ events p'
            = events hook_pool
              ++ (OsSystem <$> hook_commands "fetch_pre_cmd" hook_pool)
              ++ (OsSystem <$> hook_commands "fetch_post_cmd" hook_pool).
Proof.
  assert (H : (List.length (manifests hook_pool) ≤ 4)%nat)
    by (simpl; lia).
  split; [split; [exact hook_pool_all_fetched | exact H] |].
  split; [reflexivity |]. split; [reflexivity |].
  apply (fetch_runs_hooks_only lower ex_svn_parse ex_url_parse ex_basename
           ex_basename ex_same ex_same ex_join ex_str_parent ex_manifest_at
           ex_checkout ex_shell_failing 4 hook_pool hook_pool_all_fetched
           H).
Defined.

Lemma fetch_local_asserts_witness :
  store unborn_pool !! 0 = Some new_module
  ∧ isfetched new_module = false
  ∧ (source new_module = Some local ∨ source new_module = None)
  ∧ ex_loop 1 ([] ++ [0]) unborn_pool
    = (Some (Raise AssertionError), unborn_pool).
Proof.
  assert (H1 : store unborn_pool !! 0 = Some new_module) by reflexivity.
  assert (H2 : isfetched new_module = false) by reflexivity.
  assert (H3 : source new_module = Some local ∨ source new_module = None)
    by (right; reflexivity).
  split; [exact H1 |]. split; [exact H2 |]. split; [exact H3 |].
  apply (fetch_local_asserts lower ex_svn_parse ex_url_parse ex_basename
           ex_basename ex_same ex_same ex_join ex_str_parent ex_manifest_at
           ex_checkout 0 [] 0 unborn_pool new_module H1 H2 H3).
Defined.

Lemma fetched_module_found_on_disk_witness :
  (arg_source d_of_b ≠ local
   ∧ arg_source d_of_c = arg_source d_of_b
   ∧ arg_url d_of_c = arg_url d_of_b
   ∧ arg_fetchto d_of_c = arg_fetchto d_of_b
   ∧ is_Some (arg_parent d_of_c))
  ∧ ∃ m,
      ex_init diamond_fs new_module d_of_b = Ok m
      ∧ store diamond_pool !! 3 = Some m
      ∧ ex_checkout git m = Some ["Manifest.py"]
      ∧ ∃ m', ex_init (fs (backend_fetch ex_checkout git 3 diamond_pool).2)
                new_module d_of_c
              = Ok m'
              ∧ isfetched m' = true ∧ path m' = path m.
Proof.
  assert (H0 : arg_source d_of_b ≠ local) by discriminate.
  assert (H1 : is_Some (arg_parent d_of_c)) by (by eexists).
  split; [by repeat split |].
  eexists. split; [vm_compute; reflexivity |].
  split; [reflexivity |]. split; [reflexivity |].
  apply (fetched_module_found_on_disk ex_svn_parse ex_url_parse ex_basename
           ex_basename ex_same ex_same ex_join ex_str_parent ex_checkout git
           3 diamond_pool diamond_fs d_of_b d_of_c _ "Manifest.py" []
           H0 eq_refl eq_refl eq_refl H1 eq_refl eq_refl eq_refl).
Defined.

Lemma write_qip_result_witness :
  Forall (λ f, is_Some (srcfile.library f)) qip_files
  ∧ _write_qip ex_relpath "top" qip_files (Some "")
    = Written (if bool_decide ("" = "") then "top" else "")
        (str_join "
" ((λ f, qip_line (default "" (srcfile.library f)) (ftype f)
           (ex_relpath (srcfile.path f))) <$> qip_files) +:+ "
").
Proof.
  assert (H : Forall (λ f, is_Some (srcfile.library f)) qip_files).
  { repeat (apply Forall_cons; split; [by eexists |]). apply Forall_nil_2. }
  split; [exact H |].
  apply (write_qip_result ex_relpath "top" qip_files (Some "") H).
Defined.

End commands_extra.
